(** * gkemcp: the GKE deployment pipeline and its MCP tool handlers

    A shallow embedding of [src/lib/gke-deploy.js], [src/lib/gke-clusters.js]
    and of the [create_project] handler of [src/tools.js].

    JavaScript values are modelled as follows.
    - strings are [string] (code units restricted to bytes);
    - object literals are association lists in property order, so that
      [JSON.stringify] and property lookup can both be computed;
    - an [async] function is a computation of the monad [M]: it reads and
      changes the state of the remote services, appends to the log of what
      it did, and either returns a value or throws;
    - the services the code talks to (Service Usage, the container client,
      the child process running [gcloud] and [kubectl]) are the fields of a
      record [Collaborators]; every theorem quantifies over that record. *)

From Stdlib Require Import String Ascii List ZArith Lia Bool DecimalString.
Import ListNotations.
Open Scope string_scope.
Set Warnings "-register-all".

(** ** Strings *)

Module Js.

(** The double quote character, and the empty string. *)
Definition dq : string := String "034"%char EmptyString.
Definition empty : string := EmptyString.

Definition is_upper (c : ascii) : bool :=
  (65 <=? nat_of_ascii c)%nat && (nat_of_ascii c <=? 90)%nat.

Definition lower_char (c : ascii) : ascii :=
  if is_upper c then ascii_of_nat (nat_of_ascii c + 32) else c.

(** [String.prototype.toLowerCase] on the ASCII range. *)
Fixpoint toLowerCase (s : string) : string :=
  match s with
  | EmptyString => EmptyString
  | String c rest => String (lower_char c) (toLowerCase rest)
  end.

(** [String.prototype.endsWith]: the last [length suffix] code units of [s]
    are [suffix]. *)
Definition endsWith (s suffix : string) : bool :=
  let n := String.length s in
  let m := String.length suffix in
  if (m <=? n)%nat then String.eqb (substring (n - m) m s) suffix else false.

(** White space and line terminators among the code units below 256: TAB,
    LF, VT, FF, CR, SP and NBSP (U+00A0). The others ([trim] also strips
    U+FEFF, U+2028, U+2029 and the space separators from U+1680 on) are
    not code units of this model. *)
Definition is_space (c : ascii) : bool :=
  let n := nat_of_ascii c in
  ((9 <=? n)%nat && (n <=? 13)%nat) || (n =? 32)%nat || (n =? 160)%nat.

Fixpoint trimStart (s : string) : string :=
  match s with
  | EmptyString => EmptyString
  | String c rest => if is_space c then trimStart rest else s
  end.

Fixpoint trimEnd (s : string) : string :=
  match s with
  | EmptyString => EmptyString
  | String c rest =>
      match trimEnd rest with
      | EmptyString => if is_space c then EmptyString else String c EmptyString
      | kept => String c kept
      end
  end.

(** [String.prototype.trim]. *)
Definition trim (s : string) : string := trimEnd (trimStart s).

(** [Number.prototype.toString] on integers. *)
Definition string_of_Z (n : Z) : string := NilZero.string_of_int (Z.to_int n).

Definition hex_digit (n : nat) : ascii :=
  if (n <? 10)%nat then ascii_of_nat (48 + n) else ascii_of_nat (87 + n).

(** One code unit inside a JSON string literal (QuoteJSONString). *)
Definition quote_char (c : ascii) : string :=
  let n := nat_of_ascii c in
  if (n =? 34)%nat then "\" ++ dq
  else if (n =? 92)%nat then "\\"
  else if (n =? 8)%nat then "\b"
  else if (n =? 9)%nat then "\t"
  else if (n =? 10)%nat then "\n"
  else if (n =? 12)%nat then "\f"
  else if (n =? 13)%nat then "\r"
  else if (n <? 32)%nat then
    "\u00" ++ String (hex_digit (n / 16)) (String (hex_digit (n mod 16)) EmptyString)
  else String c EmptyString.

Fixpoint quote_body (s : string) : string :=
  match s with
  | EmptyString => EmptyString
  | String c rest => quote_char c ++ quote_body rest
  end.

Definition quote (s : string) : string := dq ++ quote_body s ++ dq.

(** Values built by object, array, string and number literals. *)
Inductive Value : Type :=
| Num (n : Z)
| Str (s : string)
| Arr (items : list Value)
| Obj (props : list (string * Value)).

(** [JSON.stringify(v)] without indentation. *)
Fixpoint stringify (v : Value) : string :=
  match v with
  | Num n => string_of_Z n
  | Str s => quote s
  | Arr items => "[" ++ String.concat "," (map stringify items) ++ "]"
  | Obj props =>
      "{" ++ String.concat ","
               (map (fun kv => quote (fst kv) ++ ":" ++ stringify (snd kv)) props)
          ++ "}"
  end.

Fixpoint assoc (k : string) (props : list (string * Value)) : option Value :=
  match props with
  | [] => None
  | (k', v) :: rest => if String.eqb k k' then Some v else assoc k rest
  end.

(** Property access [v.k]; [None] stands for [undefined]. *)
Definition get (k : string) (v : Value) : option Value :=
  match v with
  | Obj props => assoc k props
  | _ => None
  end.

(** [Object.keys(v)]. *)
Definition keys (v : Value) : list string :=
  match v with
  | Obj props => map fst props
  | _ => []
  end.

(** A thrown object: its [name], its [message] and its [code] property
    ([None] where the property is [undefined]). What is thrown is taken to
    be an object, as the handlers of the source do when they read
    [error.message] and [error.code]. *)
Record Error : Type := mkError {
  err_name : string;
  err_message : option string;
  err_code : option Z
}.

(** [new Error(message)]. *)
Definition new_Error (message : string) : Error :=
  mkError "Error" (Some message) None.

(** What evaluating an identifier that has no binding throws. *)
Definition ReferenceError (identifier : string) : Error :=
  mkError "ReferenceError" (Some (identifier ++ " is not defined")) None.

(** What calling a property that is [undefined] throws. *)
Definition TypeError (message : string) : Error :=
  mkError "TypeError" (Some message) None.

(** [`${error.message}`]. *)
Definition message_text (e : Error) : string :=
  match err_message e with
  | Some m => m
  | None => "undefined"
  end.

(** [error.code === 5]. *)
Definition code_is (n : Z) (e : Error) : bool :=
  match err_code e with
  | Some c => Z.eqb c n
  | None => false
  end.

(** How a call ends. *)
Inductive Outcome (A : Type) : Type :=
| Returned (a : A)
| Thrown (e : Error).
Arguments Returned {A} a.
Arguments Thrown {A} e.

(** [array.some(callback)], where the callback may throw. *)
Fixpoint array_some {A : Type} (callback : A -> Outcome bool) (array : list A)
  : Outcome bool :=
  match array with
  | [] => Returned false
  | x :: rest =>
      match callback x with
      | Thrown e => Thrown e
      | Returned true => Returned true
      | Returned false => array_some callback rest
      end
  end.

End Js.

Import Js.

(** ** Effects

    An [async] function of the source is a function from the state of the
    remote services to an outcome, the next state and the events it caused,
    oldest first. [await] is the bind of this monad: the code is
    sequential, nothing runs between two awaits. *)

(** The stages of the pipeline, in the order of section 4.1 of the design. *)
Inductive Stage : Type :=
| EnableAPIs | EnsureBucket | PackageSource | UploadSource
| EnsureRegistry | TriggerBuild | EnsureCluster | ApplyManifests.

Definition all_stages : list Stage :=
  [EnableAPIs; EnsureBucket; PackageSource; UploadSource;
   EnsureRegistry; TriggerBuild; EnsureCluster; ApplyManifests].

Definition stage_index (s : Stage) : nat :=
  match s with
  | EnableAPIs => 0 | EnsureBucket => 1 | PackageSource => 2
  | UploadSource => 3 | EnsureRegistry => 4 | TriggerBuild => 5
  | EnsureCluster => 6 | ApplyManifests => 7
  end.

(** The stages up to and including [s]. *)
Definition stages_through (s : Stage) : list Stage :=
  firstn (S (stage_index s)) all_stages.

(** The optional [progressCallback] argument, when it is a function. What
    the function does with a notification is outside the model: a call of
    it is an event of the log and returns normally. *)
Inductive Callback : Type := Subscriber (id : nat).

(** What a run leaves behind. The first three are output, the next five are
    requests to a collaborator. The last two are bookkeeping of the model:
    they record that the code of a stage was entered and that it threw. *)
Inductive Event : Type :=
| ConsoleLog (message : string)
| ConsoleError (message : string) (detail : option Error)
| Progress (subscriber : Callback) (event : Value)
| GetService (name : string)
| EnableService (name : string)
| OperationPromise
| GetCluster (name : string)
| Exec (command : string)
| StageInvoked (s : Stage)
| StageThrew (s : Stage) (e : Error).

Definition M (S A : Type) : Type := S -> Outcome A * S * list Event.

Definition ret {S A : Type} (a : A) : M S A :=
  fun s => (Returned a, s, []).

Definition throw {S A : Type} (e : Error) : M S A :=
  fun s => (Thrown e, s, []).

Definition bind {S A B : Type} (m : M S A) (k : A -> M S B) : M S B :=
  fun s =>
    match m s with
    | (Returned a, s1, l1) =>
        match k a s1 with
        | (o, s2, l2) => (o, s2, (l1 ++ l2)%list)
        end
    | (Thrown e, s1, l1) => (Thrown e, s1, l1)
    end.

(** [try { body } catch (error) { handler }]. *)
Definition try_catch {S A : Type} (body : M S A) (handler : Error -> M S A)
  : M S A :=
  fun s =>
    match body s with
    | (Returned a, s1, l1) => (Returned a, s1, l1)
    | (Thrown e, s1, l1) =>
        match handler e s1 with
        | (o, s2, l2) => (o, s2, (l1 ++ l2)%list)
        end
    end.

Definition emit {S : Type} (ev : Event) : M S unit :=
  fun s => (Returned tt, s, [ev]).

(** A request to a collaborator: the request is logged, the collaborator
    answers and moves to its next state. *)
Definition call {S A : Type} (ev : Event) (f : S -> Outcome A * S) : M S A :=
  fun s => match f s with (o, s1) => (o, s1, [ev]) end.

(** A call that is not logged. *)
Definition lift {S A : Type} (f : S -> Outcome A * S) : M S A :=
  fun s => match f s with (o, s1) => (o, s1, []) end.

(** An expression that may throw and touches nothing. *)
Definition eval {S A : Type} (o : Outcome A) : M S A :=
  fun s => (o, s, []).

(** Bookkeeping around the code of stage [s]; the outcome and the next state
    are those of [body]. *)
Definition stage {S A : Type} (s : Stage) (body : M S A) : M S A :=
  fun st =>
    match body st with
    | (Returned a, st1, l) => (Returned a, st1, StageInvoked s :: l)
    | (Thrown e, st1, l) =>
        (Thrown e, st1, StageInvoked s :: (l ++ [StageThrew s e])%list)
    end.

Declare Scope js_scope.
Delimit Scope js_scope with js.
Notation "x <- m ;; k" := (bind m (fun x => k))
  (at level 61, m at next level, right associativity) : js_scope.
Notation "m ;; k" := (bind m (fun _ => k))
  (at level 61, right associativity) : js_scope.
Open Scope js_scope.

Definition outcome {S A : Type} (x : Outcome A * S * list Event) : Outcome A :=
  fst (fst x).
Definition final {S A : Type} (x : Outcome A * S * list Event) : S :=
  snd (fst x).
Definition events {S A : Type} (x : Outcome A * S * list Event) : list Event :=
  snd x.

(** ** Projections of a log *)

Definition invoked (l : list Event) : list Stage :=
  flat_map (fun ev => match ev with StageInvoked s => [s] | _ => [] end) l.

Definition is_marker (ev : Event) : bool :=
  match ev with
  | StageInvoked _ | StageThrew _ _ => true
  | _ => false
  end.

Definition markers (l : list Event) : list Event := filter is_marker l.

Definition is_request (ev : Event) : bool :=
  match ev with
  | GetService _ | EnableService _ | OperationPromise | GetCluster _ | Exec _ => true
  | _ => false
  end.

(** The requests sent to collaborators, in order. *)
Definition requests (l : list Event) : list Event := filter is_request l.

(** The commands run in the child process, in order. *)
Definition commands (l : list Event) : list string :=
  flat_map (fun ev => match ev with Exec c => [c] | _ => [] end) l.

(** The objects handed to the progress callback, in order. *)
Definition delivered (l : list Event) : list Value :=
  flat_map (fun ev => match ev with Progress _ v => [v] | _ => [] end) l.

(** The names for which [enableService] was requested. *)
Definition enabled_requests (l : list Event) : list string :=
  flat_map (fun ev => match ev with EnableService n => [n] | _ => [] end) l.

(** ** The collaborators of [src/lib/gke-deploy.js] *)

(** The [state] property of what [getService] resolves to. *)
Record ServiceInfo : Type := { state : string }.

(** What the promisified [child_process.exec] resolves to. *)
Record ExecResult : Type := { stdout : string; stderr : string }.

(** An entry of the [files] argument: [deploy_local_files] and
    [deploy_local_folder] pass path strings, [deploy_file_contents] passes
    objects with the properties [filename] and [content]. *)
Inductive FileEntry : Type :=
| FilePath (path : string)
| FileContent (filename content : string).

(** The state of the remote services and the calls that read and change
    it. [locationPath] and [clusterPath] are the two methods of the
    container client that build resource names: what they return is the
    client's affair, the code only passes it on. The last five fields are the functions [deploy] calls by name
    although [src/lib/gke-deploy.js] neither defines nor imports them:
    each is given as its binding in the module scope, [None] when the
    identifier has no binding. *)
Record Collaborators : Type := {
  Remote : Type;
  Operation : Type;
  Cluster : Type;
  Bucket : Type;
  Archive : Type;
  getService : string -> Remote -> Outcome ServiceInfo * Remote;
  enableService : string -> Remote -> Outcome Operation * Remote;
  operation_promise : Operation -> Remote -> Outcome unit * Remote;
  locationPath : string -> string -> string;
  clusterPath : string -> string -> string -> string;
  client_getCluster : string -> Remote -> Outcome Cluster * Remote;
  execPromise : string -> Remote -> Outcome ExecResult * Remote;
  ensureStorageBucketExists :
    option (string -> string -> option Callback ->
            Remote -> Outcome Bucket * Remote);
  zipFiles :
    option (list FileEntry -> option Callback ->
            Remote -> Outcome Archive * Remote);
  uploadToStorageBucket :
    option (Bucket -> Archive -> string -> option Callback ->
            Remote -> Outcome unit * Remote);
  ensureArtifactRegistryRepoExists :
    option (string -> string -> string -> string -> option Callback ->
            Remote -> Outcome string * Remote);
  triggerCloudBuild :
    option (string -> string -> string -> string -> string -> string ->
            bool -> option Callback -> Remote -> Outcome unit * Remote)
}.

(** ** [src/lib/gke-deploy.js] *)

Definition REPO_NAME : string := "mcp-gke-deployments".
Definition ZIP_FILE_NAME : string := "source.zip".
Definition IMAGE_TAG : string := "latest".
Definition REQUIRED_APIS : list string :=
  ["iam.googleapis.com";
   "storage.googleapis.com";
   "cloudbuild.googleapis.com";
   "artifactregistry.googleapis.com";
   "container.googleapis.com"].

(** The deployment manifest literal of [deployToGke]. *)
Definition deployment_manifest (deploymentName imgUrl : string) : Value :=
  Obj [("apiVersion", Str "apps/v1");
       ("kind", Str "Deployment");
       ("metadata",
         Obj [("name", Str deploymentName);
              ("labels", Obj [("created-by", Str "gke-mcp")])]);
       ("spec",
         Obj [("replicas", Num 1);
              ("selector",
                Obj [("matchLabels", Obj [("app", Str deploymentName)])]);
              ("template",
                Obj [("metadata",
                       Obj [("labels", Obj [("app", Str deploymentName)])]);
                     ("spec",
                       Obj [("containers",
                              Arr [Obj [("name", Str deploymentName);
                                        ("image", Str imgUrl);
                                        ("ports",
                                          Arr [Obj [("containerPort",
                                                     Num 8080)]])]])])])])].

(** The service manifest literal of [deployToGke]. *)
Definition service_manifest (deploymentName : string) : Value :=
  Obj [("apiVersion", Str "v1");
       ("kind", Str "Service");
       ("metadata",
         Obj [("name", Str (deploymentName ++ "-service"));
              ("labels", Obj [("created-by", Str "gke-mcp")])]);
       ("spec",
         Obj [("type", Str "LoadBalancer");
              ("ports", Arr [Obj [("port", Num 80); ("targetPort", Num 8080)]]);
              ("selector", Obj [("app", Str deploymentName)])])].

(** The four command lines of [deployToGke]. *)
Definition credentials_command (projectId location clusterId : string) : string :=
  "gcloud container clusters get-credentials " ++ clusterId
    ++ " --zone " ++ location ++ " --project " ++ projectId.

Definition apply_command (manifest : Value) : string :=
  "echo '" ++ stringify manifest ++ "' | kubectl apply -f -".

Definition address_command (deploymentName : string) : string :=
  "kubectl get service " ++ deploymentName
    ++ "-service -o jsonpath='{.status.loadBalancer.ingress[0].ip}'".

(** The arguments of [deploy]; an absent property takes the default of the
    parameter list. *)
Record DeployArgs : Type := {
  projectId : string;
  serviceName : option string;
  region : option string;
  clusterId : option string;
  files : list FileEntry;
  progressCallback : option Callback
}.

Definition or_default (d : string) (x : option string) : string :=
  match x with
  | Some v => v
  | None => d
  end.

(** [file.toLowerCase()]: a string has the method, an object with the
    properties [filename] and [content] has not. *)
Definition file_toLowerCase (file : FileEntry) : Outcome string :=
  match file with
  | FilePath path => Returned (toLowerCase path)
  | FileContent _ _ => Thrown (TypeError "file.toLowerCase is not a function")
  end.

(** [files.some(file => file.toLowerCase().endsWith('dockerfile'))]. *)
Definition hasDockerfile (files : list FileEntry) : Outcome bool :=
  array_some
    (fun file =>
       match file_toLowerCase file with
       | Returned lower => Returned (endsWith lower "dockerfile")
       | Thrown e => Thrown e
       end)
    files.

Section GkeDeploy.

Variable C : Collaborators.

Local Abbreviation T := (M (Remote C)).

Definition console_log (message : string) : T unit :=
  emit (ConsoleLog message).

Definition console_error (message : string) (detail : option Error) : T unit :=
  emit (ConsoleError message detail).

(** [logAndProgress(message, progressCallback, severity = 'info')]. *)
Definition logAndProgress (message : string) (progressCallback : option Callback)
    (severity : option string) : T unit :=
  let severity := or_default "info" severity in
  (if String.eqb severity "error"
   then console_error message None
   else console_log message) ;;
  match progressCallback with
  | Some cb => emit (Progress cb (Obj [("level", Str severity); ("data", Str message)]))
  | None => ret tt
  end.

(** The body of the [for (const api of apis)] loop of [ensureApisEnabled]. *)
Definition ensureApi (projectId : string) (progressCallback : option Callback)
    (api : string) : T unit :=
  let serviceName := "projects/" ++ projectId ++ "/services/" ++ api in
  try_catch
    (service <- call (GetService serviceName) (getService C serviceName) ;;
     if negb (String.eqb (state service) "ENABLED") then
       logAndProgress ("API [" ++ api ++ "] is not enabled. Enabling...")
         progressCallback None ;;
       operation <- call (EnableService serviceName) (enableService C serviceName) ;;
       call OperationPromise (operation_promise C operation)
     else ret tt)
    (fun error =>
       let errorMessage :=
         "Failed to ensure API [" ++ api ++ "] is enabled. Please check manually." in
       console_error errorMessage (Some error) ;;
       logAndProgress errorMessage progressCallback (Some "error") ;;
       throw (new_Error errorMessage)).

Fixpoint for_each {A : Type} (body : A -> T unit) (items : list A) : T unit :=
  match items with
  | [] => ret tt
  | x :: rest => body x ;; for_each body rest
  end.

(** [ensureApisEnabled(projectId, apis, progressCallback)]. Loading the
    client library and constructing the client reach no remote service and
    are left out. *)
Definition ensureApisEnabled (projectId : string) (apis : list string)
    (progressCallback : option Callback) : T unit :=
  logAndProgress "Checking and enabling required APIs..." progressCallback None ;;
  for_each (ensureApi projectId progressCallback) apis ;;
  logAndProgress "All required APIs are enabled." progressCallback None.

(** [checkGkeClusterExists(projectId, location, clusterId,
    progressCallback)]; [containerClient] is the client [deploy] has set. *)
Definition checkGkeClusterExists (projectId location clusterId : string)
    (progressCallback : option Callback) : T bool :=
  let parent := locationPath C projectId location in
  try_catch
    (call (GetCluster (parent ++ "/clusters/" ++ clusterId))
          (client_getCluster C (parent ++ "/clusters/" ++ clusterId)) ;;
     logAndProgress ("GKE cluster " ++ clusterId ++ " exists.") progressCallback None ;;
     ret true)
    (fun error =>
       if code_is 5 error then
         logAndProgress ("GKE cluster " ++ clusterId ++ " does not exist.")
           progressCallback None ;;
         ret false
       else
         let errorMessage :=
           "Error checking GKE cluster " ++ clusterId ++ ": " ++ message_text error in
         console_error ("Error checking GKE cluster " ++ clusterId ++ ":") (Some error) ;;
         logAndProgress errorMessage progressCallback (Some "error") ;;
         throw error).

Definition exec (command : string) : T ExecResult :=
  call (Exec command) (execPromise C command).

(** [deployToGke(projectId, location, clusterId, deploymentName, imgUrl,
    progressCallback)]. The first marker is put around the existence check
    and its guard, the second around everything from the credentials to
    the result. *)
Definition deployToGke (projectId location clusterId deploymentName imgUrl : string)
    (progressCallback : option Callback) : T Value :=
  try_catch
    (stage EnsureCluster
       (exists_ <- checkGkeClusterExists projectId location clusterId progressCallback ;;
        if negb exists_ then
          throw (new_Error ("GKE cluster " ++ clusterId
                              ++ " does not exist. Please create it first."))
        else ret tt) ;;
     let deployment := deployment_manifest deploymentName imgUrl in
     let service := service_manifest deploymentName in
     stage ApplyManifests
       (logAndProgress ("Getting credentials for cluster " ++ clusterId ++ "...")
          progressCallback None ;;
        exec (credentials_command projectId location clusterId) ;;
        logAndProgress ("Deploying " ++ deploymentName ++ " to GKE...")
          progressCallback None ;;
        let deploymentYaml := stringify deployment in
        let serviceYaml := stringify service in
        exec ("echo '" ++ deploymentYaml ++ "' | kubectl apply -f -") ;;
        exec ("echo '" ++ serviceYaml ++ "' | kubectl apply -f -") ;;
        out <- exec (address_command deploymentName) ;;
        logAndProgress
          ("Deployment successful! Service available at: http://" ++ stdout out)
          progressCallback None ;;
        ret (Obj [("name", Str deploymentName);
                  ("url", Str ("http://" ++ stdout out))])))
    (fun error =>
       let errorMessage := "Error deploying to GKE: " ++ message_text error in
       console_error "Error deploying to GKE:" (Some error) ;;
       logAndProgress errorMessage progressCallback (Some "error") ;;
       throw error).

(** A call of a function the module does not define: evaluating the
    identifier throws when it has no binding, otherwise the function runs
    as stage [s]. *)
Definition call_binding {A : Type} (s : Stage) (identifier : string)
    (binding : option (Remote C -> Outcome A * Remote C)) : T A :=
  match binding with
  | None => throw (ReferenceError identifier)
  | Some f => stage s (lift f)
  end.

(** [deploy({ projectId, serviceName, region, clusterId, files,
    progressCallback })]. The imports and the four client constructors at
    the top of the [try] block reach no remote service and are left out. *)
Definition deploy (args : DeployArgs) : T Value :=
  let projectId := projectId args in
  let serviceName := or_default "app" (serviceName args) in
  let region := or_default "europe-west1" (region args) in
  let clusterId := or_default "default-cluster" (clusterId args) in
  let files := files args in
  let progressCallback := progressCallback args in
  try_catch
    (stage EnableAPIs (ensureApisEnabled projectId REQUIRED_APIS progressCallback) ;;
     let bucketName := projectId ++ "-" ++ REPO_NAME in
     bucket <- call_binding EnsureBucket "ensureStorageBucketExists"
                 (option_map (fun f => f bucketName region progressCallback)
                    (ensureStorageBucketExists C)) ;;
     zipBuffer <- call_binding PackageSource "zipFiles"
                    (option_map (fun f => f files progressCallback) (zipFiles C)) ;;
     call_binding UploadSource "uploadToStorageBucket"
       (option_map (fun f => f bucket zipBuffer ZIP_FILE_NAME progressCallback)
          (uploadToStorageBucket C)) ;;
     let repoName := serviceName ++ "-repo" in
     targetRepoName <- call_binding EnsureRegistry "ensureArtifactRegistryRepoExists"
                         (option_map
                            (fun f => f projectId region repoName "DOCKER" progressCallback)
                            (ensureArtifactRegistryRepoExists C)) ;;
     let targetImageUrl := targetRepoName ++ "/" ++ serviceName ++ ":" ++ IMAGE_TAG in
     hasDockerfile <- eval (hasDockerfile files) ;;
     call_binding TriggerBuild "triggerCloudBuild"
       (option_map
          (fun f => f projectId region bucketName ZIP_FILE_NAME targetRepoName
                      targetImageUrl hasDockerfile progressCallback)
          (triggerCloudBuild C)) ;;
     result <- deployToGke projectId region clusterId serviceName targetImageUrl
                 progressCallback ;;
     ret result)
    (fun error =>
       let errorMessage := "Deployment failed: " ++ message_text error in
       console_error "Deployment failed:" (Some error) ;;
       logAndProgress errorMessage progressCallback (Some "error") ;;
       throw error).

End GkeDeploy.

(** ** [src/lib/gke-clusters.js] *)

Module GkeClusters.
Section GkeClusters.

Variable C : Collaborators.

(** [getCluster(projectId, location, clusterId)]; [None] is [null]. *)
Definition getCluster (projectId location clusterId : string)
  : M (Remote C) (option (Cluster C)) :=
  let name := clusterPath C projectId location clusterId in
  try_catch
    (cluster <- call (GetCluster name) (client_getCluster C name) ;;
     ret (Some cluster))
    (fun error =>
       if code_is 5 error then ret None
       else
         emit (ConsoleError "Error getting GKE cluster:" (Some error)) ;;
         throw error).

End GkeClusters.
End GkeClusters.

(** ** [src/tools.js]: the handler of [create_project] *)

Module Tools.

(** The identifiers with a binding where the handler builds its success
    message: the imports of the module, its two exports, the parameter of
    [registerTools], the parameter of the handler and its local [result]. *)
Definition scope : list string :=
  ["z"; "deploy"; "listClusters"; "getCluster"; "listProjects";
   "createProjectAndAttachBilling"; "checkGCP"; "registerTools";
   "registerToolsRemote"; "server"; "projectId"; "result"].

(** [{ content: [{ type: 'text', text }] }]. *)
Definition text_response (text : string) : Value :=
  Obj [("content", Arr [Obj [("type", Str "text"); ("text", Str text)]])].

(** [response.content[0].text]. *)
Definition response_text (response : Value) : option string :=
  match get "content" response with
  | Some (Arr (first :: _)) =>
      match get "text" first with
      | Some (Str t) => Some t
      | _ => None
      end
  | _ => None
  end.




Section CreateProject.

(** [createProjectAndAttachBilling] is imported from
    [src/lib/gcp-projects.js]; it is a parameter, with the state [S] it
    works on and the type of what it resolves to. [render x] is the text a
    template literal gets for the value bound to the identifier [x]. *)
Variable S : Type.
Variable ProjectResult : Type.
Variable createProjectAndAttachBilling :
  option string -> S -> Outcome ProjectResult * S.
Variable render : string -> string.

(** Evaluating the identifier [x] inside a template literal. *)
Definition identifier (x : string) : Outcome string :=
  if existsb (String.eqb x) scope then Returned (render x)
  else Thrown (ReferenceError x).

(** [projectId !== undefined &&
     (typeof projectId !== 'string' || projectId.trim() === '')];
    [None] is [undefined], and a defined [projectId] is a string. *)
Definition rejected (projectId : option string) : bool :=
  match projectId with
  | None => false
  | Some p => false || String.eqb (trim p) empty
  end.


End CreateProject.
End Tools.

(** ** Test doubles

    A small cloud to run the code against. Its state is the list of the
    services that are enabled; what else it answers is fixed by a
    configuration. *)

Record FakeConfig : Type := {
  fake_clusters : list string;   (** resource names of the clusters there are *)
  fake_address : string;         (** what the address query prints *)
  fake_failing : list string;    (** names of the operations that fail *)
  fake_bound : bool              (** are the five absent functions bound? *)
}.

Definition mem (x : string) (l : list string) : bool := existsb (String.eqb x) l.

Definition denied : Error := mkError "Error" (Some "7 PERMISSION_DENIED") (Some 7%Z).
Definition not_found : Error := mkError "Error" (Some "5 NOT_FOUND") (Some 5%Z).
Definition failed (what : string) : Error := new_Error (what ++ " failed").

Definition fails {A : Type} (cfg : FakeConfig) (what : string) (a : A)
    (r : list string) : Outcome A * list string :=
  if mem what (fake_failing cfg) then (Thrown (failed what), r) else (Returned a, r).

Definition fake (cfg : FakeConfig) : Collaborators := {|
  Remote := list string;
  Operation := string;
  Cluster := string;
  Bucket := string;
  Archive := list FileEntry;
  getService := fun name r =>
    if mem "getService" (fake_failing cfg) then (Thrown denied, r)
    else (Returned {| state := if mem name r then "ENABLED" else "DISABLED" |}, r);
  enableService := fun name r =>
    if mem "enableService" (fake_failing cfg) then (Thrown denied, r)
    else (Returned name, name :: r);
  operation_promise := fun _ r => (Returned tt, r);
  locationPath := fun project location =>
    "projects/" ++ project ++ "/locations/" ++ location;
  clusterPath := fun project location cluster =>
    "projects/" ++ project ++ "/locations/" ++ location ++ "/clusters/" ++ cluster;
  client_getCluster := fun name r =>
    if mem "getCluster" (fake_failing cfg) then (Thrown denied, r)
    else if mem name (fake_clusters cfg) then (Returned name, r)
    else (Thrown not_found, r);
  execPromise := fun command r =>
    if mem command (fake_failing cfg) then (Thrown (failed command), r)
    else if prefix "kubectl get service" command
         then (Returned {| stdout := fake_address cfg; stderr := empty |}, r)
         else (Returned {| stdout := empty; stderr := empty |}, r);
  ensureStorageBucketExists :=
    if fake_bound cfg
    then Some (fun bucketName _ _ => fails cfg "ensureStorageBucketExists" bucketName)
    else None;
  zipFiles :=
    if fake_bound cfg
    then Some (fun files _ => fails cfg "zipFiles" files)
    else None;
  uploadToStorageBucket :=
    if fake_bound cfg
    then Some (fun _ _ _ _ => fails cfg "uploadToStorageBucket" tt)
    else None;
  ensureArtifactRegistryRepoExists :=
    if fake_bound cfg
    then Some (fun projectId region repoName _ _ =>
                 fails cfg "ensureArtifactRegistryRepoExists"
                   (region ++ "-docker.pkg.dev/" ++ projectId ++ "/" ++ repoName))
    else None;
  triggerCloudBuild :=
    if fake_bound cfg
    then Some (fun _ _ _ _ _ _ _ _ => fails cfg "triggerCloudBuild" tt)
    else None
|}.

(** Scenario A of section 8: everything is there already. *)
Definition scenario_A : FakeConfig := {|
  fake_clusters := ["projects/p/locations/europe-west1/clusters/default-cluster"];
  fake_address := "198.51.100.7";
  fake_failing := [];
  fake_bound := true
|}.

Definition all_enabled : list string :=
  map (fun api => "projects/p/services/" ++ api) REQUIRED_APIS.

Definition request (files : list FileEntry) : DeployArgs := {|
  projectId := "p";
  serviceName := None;
  region := None;
  clusterId := None;
  files := files;
  progressCallback := Some (Subscriber 0)
|}.

(** The load balancer has no address yet. *)
Definition no_address_yet : FakeConfig := {|
  fake_clusters := fake_clusters scenario_A;
  fake_address := empty;
  fake_failing := [];
  fake_bound := true
|}.

(** The cluster is not there. *)
Definition no_cluster : FakeConfig := {|
  fake_clusters := [];
  fake_address := "198.51.100.7";
  fake_failing := [];
  fake_bound := true
|}.

(** The upload fails. *)
Definition upload_fails : FakeConfig := {|
  fake_clusters := fake_clusters scenario_A;
  fake_address := "198.51.100.7";
  fake_failing := ["uploadToStorageBucket"];
  fake_bound := true
|}.

(** The module scope as the file under [src/] has it. *)
Definition as_written : FakeConfig := {|
  fake_clusters := fake_clusters scenario_A;
  fake_address := "198.51.100.7";
  fake_failing := [];
  fake_bound := false
|}.


(** A project service that always fails. *)
Definition fake_create_fails (projectId : option string) (s : unit)
  : Outcome string * unit :=
  (Thrown (new_Error "billing account not found"), s).

(** The read of the cluster is refused. *)
Definition read_denied : FakeConfig := {|
  fake_clusters := fake_clusters scenario_A;
  fake_address := "198.51.100.7";
  fake_failing := ["getCluster"];
  fake_bound := true
|}.

(** ** Vocabulary of the properties *)

(** What a computation can emit.

    [emits P m]: whatever the state, every event of [m] satisfies [P]. The
    lemmas below follow the constructs of the monad, so that a bound on the
    events of a function is proved by walking through its body. *)

Definition emits {S A : Type} (P : Event -> Prop) (m : M S A) : Prop :=
  forall s, Forall P (events (m s)).

(** An event of the code that runs inside a stage: no marker, no command,
    and a progress notification of the shape [logAndProgress] builds with
    the severities the module uses. *)
Definition notification (v : Value) : Prop :=
  exists level message,
    v = Obj [("level", Str level); ("data", Str message)]
    /\ (level = "info" \/ level = "error").

Definition plain (ev : Event) : Prop :=
  match ev with
  | StageInvoked _ | StageThrew _ _ | Exec _ => False
  | Progress _ v => notification v
  | _ => True
  end.

(** The weaker bound that holds for whole runs. *)
Definition shaped (ev : Event) : Prop :=
  match ev with
  | Progress _ v => notification v
  | _ => True
  end.

(** No marker. *)
Definition unmarked (ev : Event) : Prop := is_marker ev = false.

(** The markers of a run that goes through the stages [todo]: when it
    returns, every stage was entered, in order; when it throws [e], the
    stages entered are the first ones of [todo], and either none of them
    threw (the error comes from the code between two stages) or the last
    one entered threw [e]. *)
Definition ordered {S A : Type} (todo : list Stage)
    (run : Outcome A * S * list Event) : Prop :=
  match outcome run with
  | Returned _ => markers (events run) = map StageInvoked todo
  | Thrown e =>
      exists done rest,
        todo = (done ++ rest)%list
        /\ (markers (events run) = map StageInvoked done
            \/ exists before s,
                 done = (before ++ [s])%list
                 /\ markers (events run)
                    = (map StageInvoked done ++ [StageThrew s e])%list)
  end.

(** An event of the stages before the cluster check: no command, and the
    check has not been entered. *)
Definition early (ev : Event) : Prop :=
  match ev with
  | Exec _ | StageInvoked EnsureCluster => False
  | _ => True
  end.

(** A run that throws without running a command and, once the cluster check
    has been entered, throws the error of the guard of [deployToGke]. *)
Definition halts_on_precondition {S A : Type} (clusterId : string)
    (run : Outcome A * S * list Event) : Prop :=
  (exists e, outcome run = Thrown e)
  /\ commands (events run) = []
  /\ (In (StageInvoked EnsureCluster) (events run) ->
      outcome run
      = Thrown (new_Error ("GKE cluster " ++ clusterId
                             ++ " does not exist. Please create it first."))).


(** The cluster [name] is not there: the container client answers the read
    with NOT_FOUND (code 5), whatever the state. *)
Definition cluster_missing (C : Collaborators) (name : string) : Prop :=
  forall r, exists e r1,
    client_getCluster C name r = (Thrown e, r1) /\ code_is 5 e = true.

(** [v.k1.k2...]. *)
Fixpoint at_path (path : list string) (v : Value) : option Value :=
  match path with
  | [] => Some v
  | k :: rest =>
      match get k v with
      | Some x => at_path rest x
      | None => None
      end
  end.

(** The command lines of a complete run of [deployToGke], in order. *)
Definition command_lines (projectId location clusterId deploymentName imgUrl : string)
  : list string :=
  [credentials_command projectId location clusterId;
   apply_command (deployment_manifest deploymentName imgUrl);
   apply_command (service_manifest deploymentName);
   address_command deploymentName].

(** What a computation can return. *)
Definition returns {S A : Type} (P : A -> Prop) (m : M S A) : Prop :=
  forall s a, outcome (m s) = Returned a -> P a.

(** The record [deployToGke] returns for the service [name]. *)
Definition deployment_result (name : string) (v : Value) : Prop :=
  exists address,
    v = Obj [("name", Str name); ("url", Str ("http://" ++ address))].

(** The resource name [ensureApisEnabled] uses for an API. *)
Definition service_name (projectId api : string) : string :=
  "projects/" ++ projectId ++ "/services/" ++ api.

(** The service [name] reads as ENABLED in state [r], and reading it leaves
    the state as it is. *)
Definition enabled_in (C : Collaborators) (name : string) (r : Remote C) : Prop :=
  exists service,
    getService C name r = (Returned service, r) /\ state service = "ENABLED".

(** A Service Usage collaborator that behaves like a set of flags: reading
    a flag changes nothing, enabling one flag clears no other, and a flag
    whose enable operation completed reads as ENABLED. *)
Record ApiFlags (C : Collaborators) : Prop := {
  read_only : forall name r, snd (getService C name r) = r;
  enable_keeps :
    forall name other r operation r1,
      enabled_in C other r ->
      enableService C name r = (Returned operation, r1) ->
      enabled_in C other r1;
  promise_keeps :
    forall operation other r r1,
      enabled_in C other r ->
      operation_promise C operation r = (Returned tt, r1) ->
      enabled_in C other r1;
  enable_effective :
    forall name r operation r1 r2,
      enableService C name r = (Returned operation, r1) ->
      operation_promise C operation r1 = (Returned tt, r2) ->
      enabled_in C name r2
}.

(** ** Outcome and state

    What a run leaves when its log is put aside: how it ended and the state
    of the remote services. *)

Definition St (S A : Type) : Type := S -> Outcome A * S.

Definition run {S A : Type} (m : M S A) : St S A :=
  fun s => (outcome (m s), final (m s)).

(** [m], then [k] on what [m] returned, in the state [m] left; when [m]
    throws, [k] is not run. *)
Definition and_then {S A B : Type} (m : St S A) (k : A -> St S B) : St S B :=
  fun s =>
    match m s with
    | (Returned a, s1) => k a s1
    | (Thrown e, s1) => (Thrown e, s1)
    end.

Definition done {S A : Type} (a : A) : St S A := fun s => (Returned a, s).

Definition fail {S A : Type} (e : Error) : St S A := fun s => (Thrown e, s).

(** Every run of [m] that returns leaves a value and a state that satisfy
    [P]. *)
Definition returns_in {S A : Type} (P : A -> S -> Prop) (m : M S A) : Prop :=
  forall s a, outcome (m s) = Returned a -> P a (final (m s)).

(** The orchestrator of section 4.1 of the design, over the functions that
    stand for the stages two to six: each stage runs in the state the one
    before left and is fed the results of those before, and the first that
    throws ends the run with its error. *)
Section Orchestrator.

Variable C : Collaborators.
Variable ensureBucket :
  string -> string -> option Callback -> St (Remote C) (Bucket C).
Variable packageSource :
  list FileEntry -> option Callback -> St (Remote C) (Archive C).
Variable uploadSource :
  Bucket C -> Archive C -> string -> option Callback -> St (Remote C) unit.
Variable ensureRegistry :
  string -> string -> string -> string -> option Callback -> St (Remote C) string.
Variable triggerBuild :
  string -> string -> string -> string -> string -> string -> bool ->
  option Callback -> St (Remote C) unit.

(** EnableAPIs, EnsureBucket, PackageSource, UploadSource, EnsureRegistry,
    then [next] on the repository. *)
Definition provision_then (args : DeployArgs)
    (next : string -> St (Remote C) Value) : St (Remote C) Value :=
  let project := projectId args in
  let service := or_default "app" (serviceName args) in
  let location := or_default "europe-west1" (region args) in
  let cb := progressCallback args in
  let bucketName := project ++ "-" ++ REPO_NAME in
  and_then (run (ensureApisEnabled C project REQUIRED_APIS cb)) (fun _ =>
  and_then (ensureBucket bucketName location cb) (fun bucket =>
  and_then (packageSource (files args) cb) (fun archive =>
  and_then (uploadSource bucket archive ZIP_FILE_NAME cb) (fun _ =>
  and_then (ensureRegistry project location (service ++ "-repo") "DOCKER" cb)
    next)))).

(** TriggerBuild with the strategy [dockerfile], EnsureCluster,
    ApplyManifests. *)
Definition build_and_release (args : DeployArgs) (dockerfile : bool)
    (repository : string) : St (Remote C) Value :=
  let project := projectId args in
  let service := or_default "app" (serviceName args) in
  let location := or_default "europe-west1" (region args) in
  let cluster := or_default "default-cluster" (clusterId args) in
  let cb := progressCallback args in
  let bucketName := project ++ "-" ++ REPO_NAME in
  let image := repository ++ "/" ++ service ++ ":" ++ IMAGE_TAG in
  and_then (triggerBuild project location bucketName ZIP_FILE_NAME repository
              image dockerfile cb) (fun _ =>
  and_then (run (checkGkeClusterExists C project location cluster cb)) (fun found =>
  if negb found
  then fail (new_Error ("GKE cluster " ++ cluster
                          ++ " does not exist. Please create it first."))
  else
    and_then (execPromise C (credentials_command project location cluster)) (fun _ =>
    and_then (execPromise C (apply_command (deployment_manifest service image))) (fun _ =>
    and_then (execPromise C (apply_command (service_manifest service))) (fun _ =>
    and_then (execPromise C (address_command service)) (fun out =>
    done (Obj [("name", Str service);
               ("url", Str ("http://" ++ stdout out))]))))))).

End Orchestrator.

(** A cloud that keeps a journal: every call succeeds and writes its name
    at the end of the state. *)
Definition note {A : Type} (what : string) (a : A) (r : list string)
  : Outcome A * list string :=
  (Returned a, (r ++ [what])%list).

Definition journal : Collaborators := {|
  Remote := list string;
  Operation := unit;
  Cluster := unit;
  Bucket := unit;
  Archive := unit;
  getService := fun _ => note "getService" {| state := "DISABLED" |};
  enableService := fun _ => note "enableService" tt;
  operation_promise := fun _ => note "operation.promise" tt;
  locationPath := fun project location => project ++ "/" ++ location;
  clusterPath := fun project location cluster =>
    project ++ "/" ++ location ++ "/" ++ cluster;
  client_getCluster := fun _ => note "getCluster" tt;
  execPromise := fun command =>
    note "exec" {| stdout := "198.51.100.7"; stderr := empty |};
  ensureStorageBucketExists :=
    Some (fun _ _ _ => note "ensureStorageBucketExists" tt);
  zipFiles := Some (fun _ _ => note "zipFiles" tt);
  uploadToStorageBucket := Some (fun _ _ _ _ => note "uploadToStorageBucket" tt);
  ensureArtifactRegistryRepoExists :=
    Some (fun _ _ _ _ _ => note "ensureArtifactRegistryRepoExists" "repo");
  triggerCloudBuild := Some (fun _ _ _ _ _ _ _ _ => note "triggerCloudBuild" tt)
|}.

(** The journal of the first five stages for one required API, and of the
    last three. *)
Definition journal_of_provision : list string :=
  (concat (map (fun _ => ["getService"; "enableService"; "operation.promise"])
             REQUIRED_APIS)
   ++ ["ensureStorageBucketExists"; "zipFiles"; "uploadToStorageBucket";
       "ensureArtifactRegistryRepoExists"])%list.

Definition journal_of_release : list string :=
  ["triggerCloudBuild"; "getCluster"; "exec"; "exec"; "exec"; "exec"].
(** * The code around the pipeline

    [listClusters] and [createCluster] of [src/lib/gke-clusters.js] and the
    tool handlers of [src/tools.js] that call [deploy], [listClusters] and
    [getCluster]. *)

(** ** More of JavaScript *)

Module JsMore.

Definition nl : string := String "010"%char EmptyString.



(** [s.split(c)] for a separator of one character. *)
Fixpoint split (c : ascii) (s : string) : list string :=
  match s with
  | EmptyString => [EmptyString]
  | String x rest =>
      if Ascii.eqb x c then EmptyString :: split c rest
      else match split c rest with
           | [] => [String x EmptyString]
           | segment :: segments => String x segment :: segments
           end
  end.

(** [`${array.pop()}`]. *)
Definition pop_text (array : list string) : string :=
  match rev array with
  | [] => "undefined"
  | x :: _ => x
  end.

(** [Error.prototype.toString]. *)
Definition error_toString (e : Error) : string :=
  let msg := match err_message e with Some m => m | None => empty end in
  if String.eqb (err_name e) empty then msg
  else if String.eqb msg empty then err_name e
  else err_name e ++ ": " ++ msg.

(** [`${error.message || error}`]. *)
Definition message_or_error (e : Error) : string :=
  match err_message e with
  | Some m => if String.eqb m empty then error_toString e else m
  | None => error_toString e
  end.

(** [`${v}`] for a value. *)
Fixpoint to_text (v : Value) : string :=
  match v with
  | Num n => string_of_Z n
  | Str s => s
  | Arr items => String.concat "," (map to_text items)
  | Obj _ => "[object Object]"
  end.

(** [`${object.k}`]. *)
Definition property_text (k : string) (object : Value) : string :=
  match get k object with
  | Some v => to_text v
  | None => "undefined"
  end.

End JsMore.

Import JsMore.

(** ** More of [src/lib/gke-clusters.js] *)

Module GkeClustersAdmin.



(** The [cluster] literal of [createCluster]. *)
Record NodeConfig : Type := { nc_machineType : string; nc_diskSizeGb : Z }.
Record ClientCertificateConfig : Type := { issueClientCertificate : bool }.
Record MasterAuth : Type := { clientCertificateConfig : ClientCertificateConfig }.
Record IpAllocationPolicy : Type := { useIpAliases : bool }.
Record MaxPodsConstraint : Type := { mpc_maxPodsPerNode : Z }.
Record ReleaseChannel : Type := { channel : string }.
Record ClusterSpec : Type := {
  name : string;
  initialNodeCount : Z;
  nodeConfig : NodeConfig;
  masterAuth : MasterAuth;
  cs_network : string;
  cs_subnetwork : string;
  ipAllocationPolicy : IpAllocationPolicy;
  defaultMaxPodsConstraint : MaxPodsConstraint;
  cs_releaseChannel : ReleaseChannel
}.


(** The calls of the container client behind [listClusters] and
    [createCluster], and how a template literal prints the properties of a
    cluster the handlers read.
    [created_cluster] is [operation.promise()] of a create operation, which
    resolves to the cluster. *)
Record ClusterAdmin (C : Collaborators) : Type := {
  client_listClusters : string -> Remote C -> Outcome (list (Cluster C)) * Remote C;
  client_createCluster :
    string -> ClusterSpec -> Remote C -> Outcome (Operation C) * Remote C;
  created_cluster : Operation C -> Remote C -> Outcome (Cluster C) * Remote C;
  cluster_name : Cluster C -> string;
  cluster_status : Cluster C -> string;
  cluster_currentNodeCount : Cluster C -> string;
  cluster_currentMasterVersion : Cluster C -> string
}.

Section GkeClustersAdmin.

Variable C : Collaborators.
Variable A : ClusterAdmin C.

(** [listClusters(projectId, location)]. *)
Definition listClusters (projectId location : string)
  : M (Remote C) (list (Cluster C)) :=
  let parent := locationPath C projectId location in
  try_catch
    (clusters <- lift (client_listClusters C A parent) ;;
     ret clusters)
    (fun error =>
       emit (ConsoleError "Error listing GKE clusters:" (Some error)) ;;
       throw error).


End GkeClustersAdmin.
End GkeClustersAdmin.

(** ** The other handlers of [src/tools.js] *)

Module ToolHandlers.

(** An entry of the [files] argument of [deploy_file_contents]. *)
Record InlineFile : Type := { filename : string; content : string }.

Definition inline_entry (file : InlineFile) : FileEntry :=
  FileContent (filename file) (content file).

Definition console_url (project : string) : string :=
  "https://console.cloud.google.com/kubernetes/workload/overview?project=" ++ project.

Section ToolHandlers.

Variable C : Collaborators.
Variable A : GkeClustersAdmin.ClusterAdmin C.

(** The line of [list_clusters] for one cluster. *)
Definition cluster_line (c : Cluster C) : string :=
  let clusterName := pop_text (split "/" (GkeClustersAdmin.cluster_name C A c)) in
  "- " ++ clusterName ++ " (Status: " ++ GkeClustersAdmin.cluster_status C A c ++ ")".

(** The handler of [list_clusters]; the remote one is the same with the
    project of the metadata server for [project]. Both schemas make
    [project] and [region] strings. *)
Definition list_clusters (project region : string) : M (Remote C) Value :=
  try_catch
    (clusters <- GkeClustersAdmin.listClusters C A project region ;;
     let clusterList := String.concat nl (map cluster_line clusters) in
     ret (Tools.text_response
            ("Clusters in project " ++ project ++ " (location " ++ region ++ "):"
               ++ nl ++ clusterList)))
    (fun error =>
       ret (Tools.text_response
              ("Error listing clusters for project " ++ project ++ " (region "
                 ++ region ++ "): " ++ message_text error))).

(** The handler of [get_cluster], local and remote. *)
Definition get_cluster (project region cluster : string) : M (Remote C) Value :=
  try_catch
    (clusterDetails <- GkeClusters.getCluster C project region cluster ;;
     match clusterDetails with
     | Some details =>
         ret (Tools.text_response
                ("Name: " ++ cluster ++ nl ++ "Region: " ++ region ++ nl
                   ++ "Project: " ++ project ++ nl
                   ++ "Status: " ++ GkeClustersAdmin.cluster_status C A details ++ nl
                   ++ "Node Count: "
                   ++ GkeClustersAdmin.cluster_currentNodeCount C A details ++ nl
                   ++ "Version: "
                   ++ GkeClustersAdmin.cluster_currentMasterVersion C A details))
     | None =>
         ret (Tools.text_response
                ("Cluster " ++ cluster ++ " not found in project " ++ project
                   ++ " (region " ++ region ++ ")."))
     end)
    (fun error =>
       ret (Tools.text_response
              ("Error getting cluster " ++ cluster ++ " in project " ++ project
                 ++ " (region " ++ region ++ "): " ++ message_text error))).

(** The [try] block the three deployment handlers share, with the text
    that opens the success message. No [progressCallback] is passed. *)
Definition deploy_and_report (opening : string) (project region cluster service : string)
    (files : list FileEntry) : M (Remote C) Value :=
  try_catch
    (response <- deploy C {| projectId := project;
                             serviceName := Some service;
                             region := Some region;
                             clusterId := Some cluster;
                             files := files;
                             progressCallback := None |} ;;
     ret (Tools.text_response
            (opening ++ " in project " ++ project ++ nl
               ++ "Cloud Console: " ++ console_url project ++ nl
               ++ "Service URL: " ++ property_text "url" response)))
    (fun error =>
       ret (Tools.text_response ("Error deploying to GKE: " ++ message_or_error error))).



(** The object [deploy_file_contents] prints when a request comes in. *)
Definition request_value (currentProject region cluster service : string)
    (files : list InlineFile) : Value :=
  Obj [("project", Str currentProject);
       ("region", Str region);
       ("cluster", Str cluster);
       ("service", Str service);
       ("files",
         Arr (map (fun file => Obj [("filename", Str (filename file));
                                    ("content", Str (content file))])
                files))].

(** The handler of [deploy_file_contents]; [currentProject] is the project
    of the metadata server. *)
Definition deploy_file_contents (currentProject region cluster service : string)
    (files : list InlineFile) : M (Remote C) Value :=
  emit (ConsoleLog ("New deploy request (remote): "
                      ++ stringify (request_value currentProject region cluster
                                      service files))) ;;
  if (List.length files =? 0)%nat
  then throw (new_Error "Files must be specified")
  else
    match find (fun file => String.eqb (content file) empty) files with
    | Some file => throw (new_Error ("File " ++ filename file ++ " must have content"))
    | None =>
        deploy_and_report ("GKE service " ++ service ++ " deployed")
          currentProject region cluster service (map inline_entry files)
    end.

End ToolHandlers.
End ToolHandlers.

(** ** More vocabulary *)

(** [l1] is [l2] with some entries left out. *)
Inductive subsequence {A : Type} : list A -> list A -> Prop :=
| subsequence_nil : subsequence [] []
| subsequence_skip x l1 l2 : subsequence l1 l2 -> subsequence l1 (x :: l2)
| subsequence_keep x l1 l2 : subsequence l1 l2 -> subsequence (x :: l1) (x :: l2).

(** No notification. *)
Definition unnotified (ev : Event) : Prop :=
  match ev with
  | Progress _ _ => False
  | _ => True
  end.

(** Nothing on the error console and no notification of level ['error']. *)
Definition no_error_output (ev : Event) : Prop :=
  match ev with
  | ConsoleError _ _ => False
  | Progress _ v => get "level" v <> Some (Str "error")
  | _ => True
  end.

(** A computation whose runs that return have put out no error. *)
Definition tidy {S A : Type} (m : M S A) : Prop :=
  forall s a, outcome (m s) = Returned a -> Forall no_error_output (events (m s)).

(** Not an [enableService] request. *)
Definition not_enabling (ev : Event) : Prop :=
  match ev with
  | EnableService _ => False
  | _ => True
  end.

(** An event of a deployment that has not reached the build. *)
Definition before_build (ev : Event) : Prop :=
  match ev with
  | Exec _ | GetCluster _
  | StageInvoked TriggerBuild | StageInvoked EnsureCluster
  | StageInvoked ApplyManifests => False
  | _ => True
  end.

(** A run that throws and whose events all satisfy [P]. *)
Definition fails_within {S A : Type} (P : Event -> Prop)
    (run : Outcome A * S * list Event) : Prop :=
  (exists e, outcome run = Thrown e) /\ Forall P (events run).

(** The character [c] does not occur in [s]. *)
Fixpoint free_of (c : ascii) (s : string) : Prop :=
  match s with
  | EmptyString => True
  | String x rest => x <> c /\ free_of c rest
  end.

(** A cluster admin double: the clusters of the configuration are listed
    with the status RUNNING, and a cluster is its resource name. *)
Definition fake_admin (cfg : FakeConfig) : GkeClustersAdmin.ClusterAdmin (fake cfg) :=
  GkeClustersAdmin.Build_ClusterAdmin (fake cfg)
    (fun parent r =>
       if mem "listClusters" (fake_failing cfg) then (Thrown denied, r)
       else (Returned (fake_clusters cfg), r))
    (fun parent spec r =>
       if mem "createCluster" (fake_failing cfg) then (Thrown denied, r)
       else (Returned (parent ++ "/clusters/" ++ GkeClustersAdmin.name spec), r))
    (fun operation r => (Returned operation, r))
    (fun c => c)
    (fun _ => "RUNNING")
    (fun _ => "3")
    (fun _ => "1.30.1").

(** [P] allows what [logAndProgress] puts out for the callback [cb]. *)
Definition output_ok (P : Event -> Prop) (cb : option Callback) : Prop :=
  (forall m, P (ConsoleLog m))
  /\ (forall m d, P (ConsoleError m d))
  /\ (forall c v, cb = Some c -> P (Progress c v)).

(** [P] allows the markers. *)
Definition markers_ok (P : Event -> Prop) : Prop :=
  (forall s, P (StageInvoked s)) /\ (forall s e, P (StageThrew s e)).


(** No command. *)
Definition commandless (ev : Event) : Prop :=
  match ev with
  | Exec _ => False
  | _ => True
  end.

(** Whatever the state, the [enableService] requests of [m] are among
    [names], in their order, each at most once. *)
Definition enables_within {S A : Type} (names : list string) (m : M S A) : Prop :=
  forall s, subsequence (enabled_requests (events (m s))) names.


(** What the [catch] block of [deploy] puts out for the error [e]. *)
Definition failure_report (cb : option Callback) (e : Error) : list Event :=
  ([ConsoleError "Deployment failed:" (Some e);
    ConsoleError ("Deployment failed: " ++ message_text e) None]
   ++ match cb with
      | Some c =>
          [Progress c (Obj [("level", Str "error");
                            ("data", Str ("Deployment failed: " ++ message_text e))])]
      | None => []
      end)%list.

(** The commands of the runs of [m] that return satisfy [P]. *)
Definition returns_commands {S A : Type} (P : list string -> Prop) (m : M S A) : Prop :=
  forall s a, outcome (m s) = Returned a -> P (commands (events (m s))).

(** [repo] is what the binding of [ensureArtifactRegistryRepoExists]
    returned, in some state, for the repository of [args]. *)
Definition registry_answer (C : Collaborators) (args : DeployArgs) (repo : string)
  : Prop :=
  exists f s,
    ensureArtifactRegistryRepoExists C = Some f
    /\ fst (f (projectId args) (or_default "europe-west1" (region args))
              (or_default "app" (serviceName args) ++ "-repo") "DOCKER"
              (progressCallback args) s)
       = Returned repo.




(** What a deployment handler answers for the run [deployment] of
    [deploy]: it returns a text, the success text with the URL when the
    deployment returned and the error text when it threw, and it adds no
    event and no change of state of its own. *)
Definition reported {S : Type} (opening project : string)
    (deployment run : Outcome Value * S * list Event) : Prop :=
  events run = events deployment
  /\ final run = final deployment
  /\ match outcome deployment with
     | Returned _ =>
         exists address,
           outcome run
           = Returned
               (Tools.text_response
                  (opening ++ " in project " ++ project ++ nl
                     ++ "Cloud Console: " ++ ToolHandlers.console_url project ++ nl
                     ++ "Service URL: http://" ++ address))
     | Thrown e =>
         outcome run
         = Returned (Tools.text_response
                       ("Error deploying to GKE: " ++ message_or_error e))
     end.

(** The arguments the deployment handlers pass to [deploy]. *)
Definition handler_args (project region cluster service : string)
    (files : list FileEntry) : DeployArgs := {|
  projectId := project;
  serviceName := Some service;
  region := Some region;
  clusterId := Some cluster;
  files := files;
  progressCallback := None
|}.

(** What the [catch] block of [deployToGke] puts out for the error [e]. *)
Definition gke_report (cb : option Callback) (e : Error) : list Event :=
  ([ConsoleError "Error deploying to GKE:" (Some e);
    ConsoleError ("Error deploying to GKE: " ++ message_text e) None]
   ++ match cb with
      | Some c =>
          [Progress c (Obj [("level", Str "error");
                            ("data", Str ("Error deploying to GKE: " ++ message_text e))])]
      | None => []
      end)%list.

(** The calls of [console.error] in a log, in order: the first argument
    and, when there is one, the error printed after it. *)
Fixpoint console_errors (l : list Event) : list (string * option Error) :=
  match l with
  | [] => []
  | ConsoleError message detail :: rest => (message, detail) :: console_errors rest
  | _ :: rest => console_errors rest
  end.

(** The two calls of [console.error] a [catch] block of the module makes
    for [e]: the label with the error, then, through [logAndProgress], the
    label with the message of the error. *)
Definition report_lines (label : string) (e : Error)
  : list (string * option Error) :=
  [(label ++ ":", Some e); (label ++ ": " ++ message_text e, None)].

(** The error of the guard of [deployToGke]. *)
Definition missing_cluster_error (cluster : string) : Error :=
  new_Error ("GKE cluster " ++ cluster ++ " does not exist. Please create it first.").

(** How often a failure [e] of the cluster stage is reported, with [rest]
    the reports of the callers: the error of the guard is reported by the
    callers only, an error of the read of the cluster (one whose code is
    not 5) by [checkGkeClusterExists] first. *)
Definition cluster_failure_reports (C : Collaborators)
    (project location cluster : string) (e : Error)
    (rest printed : list (string * option Error)) : Prop :=
  (e = missing_cluster_error cluster /\ printed = rest)
  \/ ((exists r0 r1,
         client_getCluster C
           (locationPath C project location ++ "/clusters/" ++ cluster) r0
         = (Thrown e, r1))
      /\ code_is 5 e = false
      /\ printed
         = (report_lines ("Error checking GKE cluster " ++ cluster) e ++ rest)%list).

(** A run in which a failure of the apply stage is printed by the [catch]
    block of [deployToGke] and by nothing else, and a failure of the
    cluster stage as [cluster_failure_reports] says. *)
Definition late_failure_counted (C : Collaborators)
    (project location cluster : string) {A : Type}
    (run : Outcome A * Remote C * list Event) : Prop :=
  forall e,
    (In (StageThrew ApplyManifests e) (events run) ->
     console_errors (events run) = report_lines "Error deploying to GKE" e)
    /\ (In (StageThrew EnsureCluster e) (events run) ->
        cluster_failure_reports C project location cluster e
          (report_lines "Error deploying to GKE" e)
          (console_errors (events run))).

(** Not the marker of a failure of one of the last two stages. *)
Definition no_late_failure (ev : Event) : Prop :=
  match ev with
  | StageThrew EnsureCluster _ | StageThrew ApplyManifests _ => False
  | _ => True
  end.

(** A run in which a failure of one of the last two stages is the outcome
    and is followed by the report of [deployToGke]. *)
Definition late_failure_reported {S A : Type} (cb : option Callback)
    (run : Outcome A * S * list Event) : Prop :=
  forall e,
    In (StageThrew EnsureCluster e) (events run)
    \/ In (StageThrew ApplyManifests e) (events run) ->
    outcome run = Thrown e
    /\ exists l, events run = (l ++ gke_report cb e)%list.

(** * Properties *)

(** ** Logs *)

Lemma invoked_app (l1 l2 : list Event) :
  invoked (l1 ++ l2) = (invoked l1 ++ invoked l2)%list.
Proof. apply flat_map_app. Qed.

Lemma markers_app (l1 l2 : list Event) :
  markers (l1 ++ l2) = (markers l1 ++ markers l2)%list.
Proof. apply filter_app. Qed.

Lemma commands_app (l1 l2 : list Event) :
  commands (l1 ++ l2) = (commands l1 ++ commands l2)%list.
Proof. apply flat_map_app. Qed.

Lemma requests_app (l1 l2 : list Event) :
  requests (l1 ++ l2) = (requests l1 ++ requests l2)%list.
Proof. apply filter_app. Qed.

Lemma delivered_app (l1 l2 : list Event) :
  delivered (l1 ++ l2) = (delivered l1 ++ delivered l2)%list.
Proof. apply flat_map_app. Qed.

Lemma enabled_requests_app (l1 l2 : list Event) :
  enabled_requests (l1 ++ l2) = (enabled_requests l1 ++ enabled_requests l2)%list.
Proof. apply flat_map_app. Qed.

(** The stages entered can be read off the markers alone. *)
Lemma invoked_markers (l : list Event) : invoked (markers l) = invoked l.
Proof.
  induction l as [|ev l IH]; [reflexivity|].
  destruct ev; simpl; try exact IH. f_equal. exact IH.
Qed.

(** The markers are bookkeeping: a stage ends as its body does, in the same
    state, and with the same events once the markers are left out. *)
Lemma stage_is_bookkeeping {S A : Type} (st : Stage) (body : M S A) (s : S) :
  outcome (stage st body s) = outcome (body s)
  /\ final (stage st body s) = final (body s)
  /\ filter (fun ev => negb (is_marker ev)) (events (stage st body s))
     = filter (fun ev => negb (is_marker ev)) (events (body s)).
Proof.
  unfold stage, outcome, final, events.
  destruct (body s) as [[[a|e] s1] l]; simpl; repeat split.
  rewrite filter_app. simpl. apply app_nil_r.
Qed.

Lemma In_markers (ev : Event) (l : list Event) :
  is_marker ev = true -> In ev l -> In ev (markers l).
Proof. intros Hm Hin. apply filter_In. split; assumption. Qed.

Section Emits.

Context {S : Type} (P : Event -> Prop).

Lemma emits_ret {A : Type} (a : A) : emits P (@ret S A a).
Proof. intro s. constructor. Qed.

Lemma emits_throw {A : Type} (e : Error) : emits P (@throw S A e).
Proof. intro s. constructor. Qed.

Lemma emits_eval {A : Type} (o : Outcome A) : emits P (@eval S A o).
Proof. intro s. constructor. Qed.

Lemma emits_lift {A : Type} (f : S -> Outcome A * S) : emits P (lift f).
Proof. intro s. unfold lift, events. destruct (f s). constructor. Qed.

Lemma emits_emit (ev : Event) : P ev -> emits P (@emit S ev).
Proof. intros H s. repeat constructor. exact H. Qed.

Lemma emits_call {A : Type} (ev : Event) (f : S -> Outcome A * S) :
  P ev -> emits P (call ev f).
Proof.
  intros H s. unfold call, events. destruct (f s). repeat constructor. exact H.
Qed.

Lemma emits_bind {A B : Type} (m : M S A) (k : A -> M S B) :
  emits P m -> (forall a, emits P (k a)) -> emits P (bind m k).
Proof.
  intros Hm Hk s. unfold bind, events. specialize (Hm s). unfold events in Hm.
  destruct (m s) as [[[a|e] s1] l1]; simpl in *; [|exact Hm].
  specialize (Hk a s1). unfold events in Hk.
  destruct (k a s1) as [[o s2] l2]. simpl in *.
  apply Forall_app. split; assumption.
Qed.

Lemma emits_try_catch {A : Type} (m : M S A) (h : Error -> M S A) :
  emits P m -> (forall e, emits P (h e)) -> emits P (try_catch m h).
Proof.
  intros Hm Hh s. unfold try_catch, events. specialize (Hm s). unfold events in Hm.
  destruct (m s) as [[[a|e] s1] l1]; simpl in *; [exact Hm|].
  specialize (Hh e s1). unfold events in Hh.
  destruct (h e s1) as [[o s2] l2]. simpl in *.
  apply Forall_app. split; assumption.
Qed.

Lemma emits_stage {A : Type} (st : Stage) (m : M S A) :
  P (StageInvoked st) -> (forall e, P (StageThrew st e)) ->
  emits P m -> emits P (stage st m).
Proof.
  intros Hi Ht Hm s. unfold stage, events. specialize (Hm s). unfold events in Hm.
  destruct (m s) as [[[a|e] s1] l1]; simpl in *.
  - constructor; assumption.
  - constructor; [assumption|]. apply Forall_app. split; [assumption|].
    repeat constructor. apply Ht.
Qed.

End Emits.

Lemma plain_shaped (ev : Event) : plain ev -> shaped ev.
Proof. destruct ev; simpl; auto. Qed.

Lemma plain_markers (l : list Event) : Forall plain l -> markers l = [].
Proof.
  induction 1 as [|ev l H _ IH]; [reflexivity|].
  destruct ev; simpl in *; try exact IH; contradiction.
Qed.

Lemma plain_commands (l : list Event) : Forall plain l -> commands l = [].
Proof.
  induction 1 as [|ev l H _ IH]; [reflexivity|].
  destruct ev; simpl in *; try exact IH; contradiction.
Qed.

Lemma plain_invoked (l : list Event) : Forall plain l -> invoked l = [].
Proof.
  intro H. rewrite <- invoked_markers, (plain_markers l H). reflexivity.
Qed.

Lemma shaped_delivered (l : list Event) :
  Forall shaped l -> Forall notification (delivered l).
Proof.
  induction 1 as [|ev l H _ IH]; [constructor|].
  destruct ev; simpl in *; try exact IH. constructor; assumption.
Qed.

Lemma notification_info (message : string) :
  notification (Obj [("level", Str "info"); ("data", Str message)]).
Proof. exists "info", message. auto. Qed.

Lemma notification_error (message : string) :
  notification (Obj [("level", Str "error"); ("data", Str message)]).
Proof. exists "error", message. auto. Qed.

Create HintDb events.

#[local] Hint Resolve notification_info notification_error : events.

(** Walks through a body built from the constructs above. *)
Ltac walk :=
  repeat first
    [ apply emits_ret | apply emits_throw | apply emits_eval | apply emits_lift
    | apply emits_bind | apply emits_try_catch
    | apply emits_emit
    | apply emits_call
    | apply emits_stage
    | match goal with |- emits _ (if ?b then _ else _) => destruct b end
    | match goal with |- emits _ (match ?x with _ => _ end) => destruct x end
    | match goal with |- forall _, emits _ _ => intro end ].

Section GkeDeployLogs.

Variable C : Collaborators.

(** [logAndProgress] as the module calls it: without a severity, or with
    ['error']. *)
Lemma logAndProgress_info (P : Event -> Prop) message cb :
  (forall ev, plain ev -> P ev) ->
  emits P (logAndProgress C message cb None).
Proof.
  intros HP. unfold logAndProgress, console_log, console_error. simpl.
  walk; apply HP; simpl; auto with events.
Qed.

Lemma logAndProgress_error (P : Event -> Prop) message cb :
  (forall ev, plain ev -> P ev) ->
  emits P (logAndProgress C message cb (Some "error")).
Proof.
  intros HP. unfold logAndProgress, console_log, console_error. simpl.
  walk; apply HP; simpl; auto with events.
Qed.

Lemma for_each_emits {A : Type} (P : Event -> Prop)
    (body : A -> M (Remote C) unit) (items : list A) :
  (forall x, emits P (body x)) -> emits P (for_each C body items).
Proof.
  intros H. induction items as [|x rest IH]; simpl.
  - apply emits_ret.
  - apply emits_bind; [apply H | intros _; exact IH].
Qed.

Lemma ensureApisEnabled_plain (P : Event -> Prop) projectId apis cb :
  (forall ev, plain ev -> P ev) ->
  emits P (ensureApisEnabled C projectId apis cb).
Proof.
  intros HP. unfold ensureApisEnabled.
  apply emits_bind; [apply logAndProgress_info, HP | intros _].
  apply emits_bind; [| intros _; apply logAndProgress_info, HP].
  apply for_each_emits. intro api. unfold ensureApi, console_error.
  apply emits_try_catch.
  - apply emits_bind; [apply emits_call, HP; exact I | intros service].
    destruct (negb _); [| apply emits_ret].
    apply emits_bind; [apply logAndProgress_info, HP | intros _].
    apply emits_bind; [apply emits_call, HP; exact I | intros op].
    apply emits_call, HP. exact I.
  - intros e. apply emits_bind; [apply emits_emit, HP; exact I | intros _].
    apply emits_bind; [apply logAndProgress_error, HP | intros _].
    apply emits_throw.
Qed.

Lemma checkGkeClusterExists_plain (P : Event -> Prop) projectId location clusterId cb :
  (forall ev, plain ev -> P ev) ->
  emits P (checkGkeClusterExists C projectId location clusterId cb).
Proof.
  intros HP. unfold checkGkeClusterExists, console_error.
  apply emits_try_catch.
  - apply emits_bind; [apply emits_call, HP; exact I | intros _].
    apply emits_bind; [apply logAndProgress_info, HP | intros _].
    apply emits_ret.
  - intros e. destruct (code_is 5 e).
    + apply emits_bind; [apply logAndProgress_info, HP | intros _]. apply emits_ret.
    + apply emits_bind; [apply emits_emit, HP; exact I | intros _].
      apply emits_bind; [apply logAndProgress_error, HP | intros _].
      apply emits_throw.
Qed.

End GkeDeployLogs.

(** ** The order of the stages *)

Lemma plain_unmarked (ev : Event) : plain ev -> unmarked ev.
Proof. destruct ev; simpl; intros H; try reflexivity; contradiction. Qed.

Lemma unmarked_markers (l : list Event) : Forall unmarked l -> markers l = [].
Proof.
  induction 1 as [|ev l H _ IH]; [reflexivity|].
  unfold markers in *. simpl. rewrite H. exact IH.
Qed.

Lemma markers_invocations (l : list Stage) :
  markers (map StageInvoked l) = map StageInvoked l.
Proof. induction l as [|s l IH]; simpl; [reflexivity | f_equal; exact IH]. Qed.

Lemma invoked_invocations (l : list Stage) : invoked (map StageInvoked l) = l.
Proof. induction l as [|s l IH]; simpl; [reflexivity | f_equal; exact IH]. Qed.

Section Ordered.

Context {S : Type}.

Lemma ordered_unmarked {A : Type} (m : M S A) (s : S) :
  emits unmarked m -> ordered [] (m s).
Proof.
  intros H. specialize (H s). unfold ordered.
  rewrite (unmarked_markers _ H).
  destruct (outcome (m s)); [reflexivity|].
  exists [], []. split; [reflexivity | left; reflexivity].
Qed.

Lemma ordered_stage {A : Type} (st : Stage) (m : M S A) (s : S) :
  emits unmarked m -> ordered [st] (stage st m s).
Proof.
  intros H. specialize (H s). unfold ordered, stage, outcome, events in *.
  destruct (m s) as [[[a|e] s1] l]; simpl in *.
  - rewrite (unmarked_markers l H). reflexivity.
  - exists [st], []. split; [reflexivity|]. right. exists [], st.
    split; [reflexivity|].
    change (markers (l ++ [StageThrew st e]))
      with (filter is_marker (l ++ [StageThrew st e])).
    rewrite filter_app. fold (markers l). rewrite (unmarked_markers l H).
    reflexivity.
Qed.

Lemma ordered_bind {A B : Type} (t1 t2 : list Stage) (m : M S A)
    (k : A -> M S B) (s : S) :
  ordered t1 (m s) -> (forall a s1, ordered t2 (k a s1)) ->
  ordered (t1 ++ t2) (bind m k s).
Proof.
  intros Hm Hk. unfold ordered, bind, outcome, events in *.
  destruct (m s) as [[[a|e] s1] l1]; simpl in *.
  - specialize (Hk a s1). destruct (k a s1) as [[[b|e] s2] l2]; simpl in *.
    + rewrite markers_app, Hm, Hk, map_app. reflexivity.
    + destruct Hk as (done & rest & Ht & Hk).
      exists (t1 ++ done)%list, rest. split.
      { rewrite Ht. apply app_assoc. }
      rewrite markers_app, Hm, map_app.
      destruct Hk as [Hk | (before & st & Hd & Hk)]; rewrite Hk.
      * left. reflexivity.
      * right. exists (t1 ++ before)%list, st. split.
        { rewrite Hd. apply app_assoc. }
        apply app_assoc.
  - destruct Hm as (done & rest & Ht & Hm).
    exists done, (rest ++ t2)%list. split.
    { rewrite Ht. symmetry. apply app_assoc. }
    exact Hm.
Qed.

(** A handler that logs and throws what it caught. *)
Lemma ordered_rethrow {A : Type} (t : list Stage) (m : M S A)
    (h : Error -> M S A) (s : S) :
  ordered t (m s) ->
  (forall e, emits unmarked (h e)) ->
  (forall e s1, outcome (h e s1) = Thrown e) ->
  ordered t (try_catch m h s).
Proof.
  intros Hm Hh Hre. unfold ordered, try_catch, outcome, events in *.
  destruct (m s) as [[[a|e] s1] l1]; simpl in *; [exact Hm|].
  specialize (Hh e s1). specialize (Hre e s1). unfold events in Hh.
  destruct (h e s1) as [[o s2] l2]. simpl in *. subst o.
  rewrite markers_app, (unmarked_markers l2 Hh), app_nil_r. exact Hm.
Qed.

End Ordered.

(** Where a stage sits in the fixed order. *)
Lemma stages_through_split (before rest : list Stage) (s : Stage) :
  all_stages = ((before ++ [s]) ++ rest)%list ->
  (before ++ [s])%list = stages_through s.
Proof.
  unfold all_stages. intros H.
  repeat (destruct before as [|? before];
          [ simpl in H; injection H as <- _; reflexivity
          | simpl in H; injection H as <- H ]).
  destruct before; discriminate H.
Qed.

Section StageOrder.

Variable C : Collaborators.

Lemma rethrow_outcome (label : string) (cb : option Callback) (e : Error)
    (r : Remote C) :
  outcome
    ((console_error C label (Some e) ;;
      logAndProgress C (label ++ " " ++ message_text e) cb (Some "error") ;;
      @throw _ Value e) r) = Thrown e.
Proof.
  unfold bind, console_error, emit, logAndProgress, console_log, outcome. simpl.
  destruct cb; reflexivity.
Qed.

Lemma rethrow_unmarked (label : string) (cb : option Callback) (e : Error) :
  emits unmarked
    (console_error C label (Some e) ;;
     logAndProgress C (label ++ " " ++ message_text e) cb (Some "error") ;;
     @throw _ Value e).
Proof.
  unfold console_error.
  apply emits_bind; [apply emits_emit; reflexivity | intros _].
  apply emits_bind; [apply logAndProgress_error, plain_unmarked | intros _].
  apply emits_throw.
Qed.

Lemma deployToGke_ordered projectId location clusterId deploymentName imgUrl cb r :
  ordered [EnsureCluster; ApplyManifests]
    (deployToGke C projectId location clusterId deploymentName imgUrl cb r).
Proof.
  unfold deployToGke. apply ordered_rethrow.
  - apply (ordered_bind [EnsureCluster] [ApplyManifests]).
    + apply ordered_stage. apply emits_bind.
      * apply checkGkeClusterExists_plain, plain_unmarked.
      * intros b. destruct (negb b); walk.
    + intros _ r1. apply ordered_stage. unfold exec.
      repeat (apply emits_bind;
              [ first [ apply logAndProgress_info, plain_unmarked
                      | apply emits_call; reflexivity ] | intros ? ]).
      apply emits_ret.
  - intro e. apply (rethrow_unmarked "Error deploying to GKE:").
  - intros e r1. apply (rethrow_outcome "Error deploying to GKE:").
Qed.

Lemma call_binding_ordered {A : Type} (s : Stage) (identifier : string)
    (binding : option (Remote C -> Outcome A * Remote C)) (r : Remote C) :
  ordered [s] (call_binding C s identifier binding r).
Proof.
  unfold call_binding. destruct binding as [f|].
  - apply ordered_stage, emits_lift.
  - unfold ordered. simpl. exists [], [s]. split; [reflexivity | left; reflexivity].
Qed.

Lemma deploy_ordered (args : DeployArgs) (r : Remote C) :
  ordered all_stages (deploy C args r).
Proof.
  unfold deploy. apply ordered_rethrow.
  - apply (ordered_bind [EnableAPIs] _).
    { apply ordered_stage, ensureApisEnabled_plain, plain_unmarked. }
    intros _ r1. apply (ordered_bind [EnsureBucket] _).
    { apply call_binding_ordered. }
    intros bucket r2. apply (ordered_bind [PackageSource] _).
    { apply call_binding_ordered. }
    intros zipBuffer r3. apply (ordered_bind [UploadSource] _).
    { apply call_binding_ordered. }
    intros _ r4. apply (ordered_bind [EnsureRegistry] _).
    { apply call_binding_ordered. }
    intros targetRepoName r5. apply (ordered_bind [] _).
    { apply ordered_unmarked, emits_eval. }
    intros dockerfile r6. apply (ordered_bind [TriggerBuild] _).
    { apply call_binding_ordered. }
    intros _ r7.
    apply (ordered_bind [EnsureCluster; ApplyManifests] []).
    { apply deployToGke_ordered. }
    intros result r8. apply ordered_unmarked, emits_ret.
  - intro e. apply (rethrow_unmarked "Deployment failed:").
  - intros e r1. apply (rethrow_outcome "Deployment failed:").
Qed.

End StageOrder.

(** ** The missing cluster *)

Lemma plain_early (ev : Event) : plain ev -> early ev.
Proof. destruct ev; simpl; intros H; try contradiction; exact I. Qed.

Lemma early_commands (l : list Event) : Forall early l -> commands l = [].
Proof.
  induction 1 as [|ev l H _ IH]; [reflexivity|].
  destruct ev; simpl in *; try exact IH; contradiction.
Qed.

Lemma early_not_checked (l : list Event) :
  Forall early l -> ~ In (StageInvoked EnsureCluster) l.
Proof.
  intros H Hin. rewrite Forall_forall in H. exact (H _ Hin).
Qed.

Section Precondition.

Context {S : Type} (clusterId : string).

Lemma halts_bind_early {A B : Type} (m : M S A) (k : A -> M S B) (s : S) :
  emits early m -> (forall a s1, halts_on_precondition clusterId (k a s1)) ->
  halts_on_precondition clusterId (bind m k s).
Proof.
  intros Hm Hk. specialize (Hm s).
  unfold halts_on_precondition, bind, outcome, events in *.
  destruct (m s) as [[[a|e] s1] l1]; simpl in *.
  - specialize (Hk a s1). destruct (k a s1) as [[o s2] l2]. simpl in *.
    destruct Hk as (He & Hc & Hp). split; [exact He|]. split.
    + rewrite commands_app, (early_commands l1 Hm), Hc. reflexivity.
    + intros Hin. apply in_app_or in Hin. destruct Hin as [Hin|Hin].
      * destruct (early_not_checked l1 Hm Hin).
      * exact (Hp Hin).
  - split; [eexists; reflexivity|]. split; [exact (early_commands l1 Hm)|].
    intros Hin. destruct (early_not_checked l1 Hm Hin).
Qed.

Lemma halts_bind {A B : Type} (m : M S A) (k : A -> M S B) (s : S) :
  halts_on_precondition clusterId (m s) ->
  halts_on_precondition clusterId (bind m k s).
Proof.
  unfold halts_on_precondition, bind, outcome, events.
  destruct (m s) as [[[a|e] s1] l1]; simpl.
  - intros ((e & He) & _). discriminate He.
  - intros (_ & Hc & Hp). split; [eexists; reflexivity|]. split; [exact Hc|].
    intros Hin. specialize (Hp Hin). injection Hp as ->. reflexivity.
Qed.

Lemma halts_rethrow {A : Type} (m : M S A) (h : Error -> M S A) (s : S) :
  halts_on_precondition clusterId (m s) ->
  (forall e, emits early (h e)) ->
  (forall e s1, outcome (h e s1) = Thrown e) ->
  halts_on_precondition clusterId (try_catch m h s).
Proof.
  intros Hm Hh Hre. unfold halts_on_precondition, try_catch, outcome, events in *.
  destruct (m s) as [[[a|e] s1] l1]; simpl in *; [exact Hm|].
  specialize (Hh e s1). specialize (Hre e s1). unfold events in Hh.
  destruct (h e s1) as [[o s2] l2]. simpl in *. subst o.
  destruct Hm as (He & Hc & Hp). split; [exact He|]. split.
  - rewrite commands_app, Hc, (early_commands l2 Hh). reflexivity.
  - intros Hin. apply in_app_or in Hin. destruct Hin as [Hin|Hin].
    + exact (Hp Hin).
    + destruct (early_not_checked l2 Hh Hin).
Qed.

End Precondition.

Section MissingCluster.

Variable C : Collaborators.

Lemma rethrow_early (label : string) (cb : option Callback) (e : Error) :
  emits early
    (console_error C label (Some e) ;;
     logAndProgress C (label ++ " " ++ message_text e) cb (Some "error") ;;
     @throw _ Value e).
Proof.
  unfold console_error.
  apply emits_bind; [apply emits_emit; exact I | intros _].
  apply emits_bind; [apply logAndProgress_error, plain_early | intros _].
  apply emits_throw.
Qed.

Lemma call_binding_early {A : Type} (s : Stage) (identifier : string)
    (binding : option (Remote C -> Outcome A * Remote C)) :
  s <> EnsureCluster -> emits early (call_binding C s identifier binding).
Proof.
  intros Hs. unfold call_binding. destruct binding as [f|].
  - apply emits_stage; [destruct s; simpl; auto | intros e; exact I | apply emits_lift].
  - apply emits_throw.
Qed.

(** The guard of [deployToGke]. *)
Lemma deployToGke_missing_cluster projectId location clusterId deploymentName
    imgUrl cb r e r1 :
  client_getCluster C (locationPath C projectId location ++ "/clusters/" ++ clusterId) r
  = (Thrown e, r1) ->
  code_is 5 e = true ->
  let run := deployToGke C projectId location clusterId deploymentName imgUrl cb r in
  outcome run
  = Thrown (new_Error ("GKE cluster " ++ clusterId
                         ++ " does not exist. Please create it first."))
  /\ final run = r1
  /\ requests (events run)
     = [GetCluster (locationPath C projectId location ++ "/clusters/" ++ clusterId)]
  /\ commands (events run) = [].
Proof.
  intros Hget Hcode run. subst run.
  cbv beta zeta delta [deployToGke try_catch bind stage checkGkeClusterExists call
                    outcome final events].
  rewrite Hget. cbn -[append]. rewrite Hcode.
  destruct cb; cbn -[append]; repeat split; reflexivity.
Qed.

End MissingCluster.

Section MissingClusterDeploy.

Variable C : Collaborators.

Lemma deploy_halts_on_precondition (args : DeployArgs) (r : Remote C) :
  cluster_missing C
    (locationPath C (projectId args) (or_default "europe-west1" (region args))
       ++ "/clusters/" ++ or_default "default-cluster" (clusterId args)) ->
  halts_on_precondition (or_default "default-cluster" (clusterId args))
    (deploy C args r).
Proof.
  intros Hmissing. unfold deploy. apply halts_rethrow.
  - apply halts_bind_early.
    { apply emits_stage; [exact I | intros e; exact I |].
      apply ensureApisEnabled_plain, plain_early. }
    intros _ r1. apply halts_bind_early.
    { apply call_binding_early. discriminate. }
    intros bucket r2. apply halts_bind_early.
    { apply call_binding_early. discriminate. }
    intros zipBuffer r3. apply halts_bind_early.
    { apply call_binding_early. discriminate. }
    intros _ r4. apply halts_bind_early.
    { apply call_binding_early. discriminate. }
    intros targetRepoName r5. apply halts_bind_early.
    { apply emits_eval. }
    intros dockerfile r6. apply halts_bind_early.
    { apply call_binding_early. discriminate. }
    intros _ r7. apply halts_bind.
    destruct (Hmissing r7) as (e & r8 & Hget & Hcode).
    destruct (deployToGke_missing_cluster C _ _ _
                (or_default "app" (serviceName args))
                (targetRepoName ++ "/" ++ or_default "app" (serviceName args)
                   ++ ":" ++ IMAGE_TAG)
                (progressCallback args) _ _ _ Hget Hcode)
      as (Ho & _ & _ & Hc).
    split; [eexists; exact Ho|]. split; [exact Hc|]. intros _. exact Ho.
  - intro e. apply (rethrow_early C "Deployment failed:").
  - intros e r1. apply (rethrow_outcome C "Deployment failed:").
Qed.

End MissingClusterDeploy.

(** C2. When the target cluster is not there (the read of the cluster is
    answered with NOT_FOUND), a deployment never returns and never runs a
    command in the child process, so neither the credentials are fetched
    nor a manifest is applied; once the cluster check has been entered it
    throws the error the guard of [deployToGke] makes for this case, whose
    message names the cluster. [deployToGke] itself sends one request, the
    read of the cluster, and nothing that would create it. *)
Theorem deploy_missing_cluster_precondition
    (C : Collaborators) (args : DeployArgs) :
  let cluster := or_default "default-cluster" (clusterId args) in
  let location := or_default "europe-west1" (region args) in
  let name := locationPath C (projectId args) location ++ "/clusters/" ++ cluster in
  let precondition_error :=
    new_Error ("GKE cluster " ++ cluster ++ " does not exist. Please create it first.") in
  cluster_missing C name ->
  (err_message precondition_error
   = Some ("GKE cluster " ++ cluster ++ " does not exist. Please create it first.")
   /\ code_is 5 precondition_error = false)
  /\ (forall r,
     let run := deploy C args r in
     (exists e, outcome run = Thrown e)
     /\ commands (events run) = []
     /\ (In (StageInvoked EnsureCluster) (events run) ->
         outcome run = Thrown precondition_error))
  /\ (forall deploymentName imgUrl cb r,
        let run :=
          deployToGke C (projectId args) location cluster deploymentName imgUrl cb r in
        outcome run = Thrown precondition_error
        /\ requests (events run) = [GetCluster name]
        /\ commands (events run) = []).
Proof.
  intros cluster location name precondition_error Hmissing.
  split; [split; reflexivity|]. split.
  - intros r. exact (deploy_halts_on_precondition C args r Hmissing).
  - intros deploymentName imgUrl cb r.
    destruct (Hmissing r) as (e & r1 & Hget & Hcode).
    destruct (deployToGke_missing_cluster C _ _ _ deploymentName imgUrl cb
                _ _ _ Hget Hcode) as (Ho & _ & Hr & Hc).
    repeat split; assumption.
Qed.

Lemma deploy_missing_cluster_precondition_witness :
  let run := deploy (fake no_cluster) (request [FilePath "/app/Dockerfile"]) [] in
  outcome run
  = Thrown (new_Error "GKE cluster default-cluster does not exist. Please create it first.")
  /\ commands (events run) = [].
Proof.
  assert (Hmissing :
            cluster_missing (fake no_cluster)
              "projects/p/locations/europe-west1/clusters/default-cluster").
  { intros r. exists not_found, r. split; reflexivity. }
  destruct (deploy_missing_cluster_precondition
              (fake no_cluster) (request [FilePath "/app/Dockerfile"]) Hmissing)
    as (_ & Hdeploy & _).
  destruct (Hdeploy []) as (_ & Hcommands & Hguard).
  split; [|exact Hcommands].
  apply Hguard. vm_compute. repeat (first [left; reflexivity | right]).
Defined.

(** ** Reading the state of a cluster *)

(** C7. Both reads of a cluster turn the answer NOT_FOUND (an error whose
    code is 5) into a value, [false] for [checkGkeClusterExists] and [null]
    for [getCluster], and throw every other error of the read unchanged;
    when the read succeeds they return [true] and the cluster. A value and
    a thrown error are different outcomes, so the caller can tell the two
    cases apart. *)
Theorem cluster_not_found_is_not_an_error
    (C : Collaborators) (projectId location clusterId : string)
    (cb : option Callback) (r : Remote C) :
  outcome (checkGkeClusterExists C projectId location clusterId cb r)
  = match fst (client_getCluster C
                 (locationPath C projectId location ++ "/clusters/" ++ clusterId) r) with
    | Returned _ => Returned true
    | Thrown e => if code_is 5 e then Returned false else Thrown e
    end
  /\ outcome (GkeClusters.getCluster C projectId location clusterId r)
     = match fst (client_getCluster C (clusterPath C projectId location clusterId) r) with
       | Returned cluster => Returned (Some cluster)
       | Thrown e => if code_is 5 e then Returned None else Thrown e
       end
  /\ (forall e : Error, Returned false <> Thrown e :> Outcome bool)
  /\ (forall e : Error, Returned None <> Thrown e :> Outcome (option (Cluster C))).
Proof.
  split; [|split; [|split; intros e H; discriminate H]].
  - cbv beta zeta delta [checkGkeClusterExists try_catch bind call outcome].
    destruct (client_getCluster C _ r) as [[cl|e] r1]; cbn -[append].
    + destruct cb; reflexivity.
    + destruct (code_is 5 e); destruct cb; reflexivity.
  - cbv beta zeta delta [GkeClusters.getCluster try_catch bind call outcome].
    destruct (client_getCluster C _ r) as [[cl|e] r1]; cbn -[append].
    + reflexivity.
    + destruct (code_is 5 e); reflexivity.
Qed.

Lemma cluster_not_found_is_not_an_error_witness :
  outcome (checkGkeClusterExists (fake no_cluster) "p" "europe-west1" "c" None [])
  = Returned false
  /\ outcome (GkeClusters.getCluster (fake no_cluster) "p" "europe-west1" "c" [])
     = Returned None
  /\ outcome (checkGkeClusterExists (fake read_denied) "p" "europe-west1" "c" None [])
     = Thrown denied
  /\ outcome (GkeClusters.getCluster (fake read_denied) "p" "europe-west1" "c" [])
     = Thrown denied.
Proof.
  destruct (cluster_not_found_is_not_an_error
              (fake no_cluster) "p" "europe-west1" "c" None [])
    as (Hcheck & Hget & _).
  destruct (cluster_not_found_is_not_an_error
              (fake read_denied) "p" "europe-west1" "c" None [])
    as (Hcheck' & Hget' & _).
  repeat split; assumption.
Defined.

(** ** What [deployToGke] runs and returns *)

Section DeployToGkeRuns.

Variable C : Collaborators.

Ltac run_deployToGke :=
  cbv beta zeta delta [deployToGke try_catch bind stage exec call
                         outcome final events].

Ltac step :=
  cbn -[append stringify deployment_manifest service_manifest
        credentials_command address_command].

(** Every run executes an initial segment of the four command lines; a run
    that returns has executed all four and returns the record built from
    the output of the last one. *)
Lemma deployToGke_commands projectId location clusterId deploymentName imgUrl cb r :
  let run := deployToGke C projectId location clusterId deploymentName imgUrl cb r in
  (exists k,
     commands (events run)
     = firstn k (command_lines projectId location clusterId deploymentName imgUrl))
  /\ (forall v, outcome run = Returned v ->
        commands (events run)
        = command_lines projectId location clusterId deploymentName imgUrl
        /\ exists address,
             v = Obj [("name", Str deploymentName);
                      ("url", Str ("http://" ++ address))]).
Proof.
  intros run. subst run. unfold command_lines, apply_command.
  pose proof (checkGkeClusterExists_plain C plain projectId location clusterId cb
                (fun _ H => H) r) as Hplain.
  run_deployToGke.
  destruct (checkGkeClusterExists C projectId location clusterId cb r)
    as [[[b|e] r1] l0]; unfold events in Hplain; simpl in Hplain;
    pose proof (plain_commands l0 Hplain) as Hl0.
  - destruct b; step.
    + destruct cb; step;
        repeat match goal with
               | |- context [execPromise C ?c ?s] =>
                   destruct (execPromise C c s) as [[?|?] ?]; step
               end;
        rewrite ?commands_app, ?Hl0; step;
        (split;
         [ first [ exists 0; reflexivity | exists 1; reflexivity
                 | exists 2; reflexivity | exists 3; reflexivity
                 | exists 4; reflexivity ]
         | intros v Hv;
           first [ discriminate Hv
                 | injection Hv as <-; split; [reflexivity | eexists; reflexivity] ] ]).
    + destruct cb; step; rewrite ?commands_app, ?Hl0; step;
        (split; [exists 0; reflexivity | intros v Hv; discriminate Hv]).
  - destruct cb; step; rewrite ?commands_app, ?Hl0; step;
      (split; [exists 0; reflexivity | intros v Hv; discriminate Hv]).
Qed.

(** Once the cluster is found and the credentials and both manifests went
    through, the address is asked for exactly once, and what that one
    query gives decides the outcome. *)
Lemma deployToGke_after_apply projectId location clusterId deploymentName imgUrl cb
    r cluster r1 x2 r2 x3 r3 x4 r4 :
  client_getCluster C (locationPath C projectId location ++ "/clusters/" ++ clusterId) r
  = (Returned cluster, r1) ->
  execPromise C (credentials_command projectId location clusterId) r1
  = (Returned x2, r2) ->
  execPromise C (apply_command (deployment_manifest deploymentName imgUrl)) r2
  = (Returned x3, r3) ->
  execPromise C (apply_command (service_manifest deploymentName)) r3
  = (Returned x4, r4) ->
  let run := deployToGke C projectId location clusterId deploymentName imgUrl cb r in
  commands (events run)
  = command_lines projectId location clusterId deploymentName imgUrl
  /\ match execPromise C (address_command deploymentName) r4 with
     | (Returned out, r5) =>
         outcome run
         = Returned (Obj [("name", Str deploymentName);
                          ("url", Str ("http://" ++ stdout out))])
         /\ final run = r5
     | (Thrown e, r5) => outcome run = Thrown e /\ final run = r5
     end.
Proof.
  intros Hget H2 H3 H4 run. subst run.
  unfold command_lines, apply_command in *.
  cbv beta zeta delta [deployToGke checkGkeClusterExists try_catch bind stage
                         exec call outcome final events].
  rewrite Hget.
  destruct cb; step; rewrite H2; step; rewrite H3; step; rewrite H4; step;
    destruct (execPromise C (address_command deploymentName) r4) as [[out|e] r5];
    step; repeat split; reflexivity.
Qed.

End DeployToGkeRuns.

(** C3 (as amended). After the cluster was found, the credentials fetched
    and both manifests applied, [deployToGke] asks for the address of the
    service exactly once: the four command lines run once each, in order,
    and there is no second query and no timeout. When that query prints
    [out], the run returns the record whose [url] is ["http://"] followed
    by [out], whatever [out] is; when the query throws, the run throws that
    same error. *)
Theorem deployToGke_single_address_query
    (C : Collaborators)
    (projectId location clusterId deploymentName imgUrl : string)
    (cb : option Callback) (r r1 r2 r3 r4 : Remote C) (cluster : Cluster C)
    (x2 x3 x4 : ExecResult) :
  client_getCluster C (locationPath C projectId location ++ "/clusters/" ++ clusterId) r
  = (Returned cluster, r1) ->
  execPromise C (credentials_command projectId location clusterId) r1
  = (Returned x2, r2) ->
  execPromise C (apply_command (deployment_manifest deploymentName imgUrl)) r2
  = (Returned x3, r3) ->
  execPromise C (apply_command (service_manifest deploymentName)) r3
  = (Returned x4, r4) ->
  let run := deployToGke C projectId location clusterId deploymentName imgUrl cb r in
  commands (events run)
  = command_lines projectId location clusterId deploymentName imgUrl
  /\ match execPromise C (address_command deploymentName) r4 with
     | (Returned out, r5) =>
         outcome run
         = Returned (Obj [("name", Str deploymentName);
                          ("url", Str ("http://" ++ stdout out))])
         /\ final run = r5
     | (Thrown e, r5) => outcome run = Thrown e /\ final run = r5
     end.
Proof. apply deployToGke_after_apply. Qed.

Lemma deployToGke_single_address_query_witness :
  let run :=
    deployToGke (fake scenario_A) "p" "europe-west1" "default-cluster" "app"
      "repo/app:latest" None [] in
  commands (events run)
  = command_lines "p" "europe-west1" "default-cluster" "app" "repo/app:latest"
  /\ outcome run
     = Returned (Obj [("name", Str "app"); ("url", Str "http://198.51.100.7")])
  /\ final run = [].
Proof.
  pose proof (deployToGke_single_address_query
                (fake scenario_A) "p" "europe-west1" "default-cluster" "app"
                "repo/app:latest" None [] [] [] [] []
                "projects/p/locations/europe-west1/clusters/default-cluster"
                {| stdout := empty; stderr := empty |}
                {| stdout := empty; stderr := empty |}
                {| stdout := empty; stderr := empty |}
                eq_refl eq_refl eq_refl eq_refl) as [Hcommands Houtcome].
  split; [exact Hcommands | exact Houtcome].
Defined.

(** The service has no address yet: the one query prints nothing, and the
    run returns a URL with no address in it instead of throwing. *)
Lemma deployToGke_url_without_address :
  let run :=
    deployToGke (fake no_address_yet) "p" "europe-west1" "default-cluster" "app"
      "repo/app:latest" None [] in
  fst (execPromise (fake no_address_yet) (address_command "app") [])
  = Returned {| stdout := empty; stderr := empty |}
  /\ outcome run = Returned (Obj [("name", Str "app"); ("url", Str "http://")])
  /\ count_occ string_dec (commands (events run)) (address_command "app") = 1
  /\ (~ exists e, outcome run = Thrown e)
  /\ (~ exists address,
          address <> empty
          /\ outcome run
             = Returned (Obj [("name", Str "app");
                              ("url", Str ("http://" ++ address))])).
Proof.
  split; [reflexivity|]. split; [reflexivity|]. split; [reflexivity|]. split.
  - intros (e & H). discriminate H.
  - intros (address & Hne & H). vm_compute in H.
    destruct address; [apply Hne; reflexivity | discriminate H].
Qed.

(** ** The result of a deployment *)

Section Returns.

Context {S : Type}.

Lemma returns_throw {A : Type} (P : A -> Prop) (e : Error) :
  returns P (@throw S A e).
Proof. intros s a H. discriminate H. Qed.

Lemma returns_bind {A B : Type} (P : B -> Prop) (m : M S A) (k : A -> M S B) :
  (forall a, returns P (k a)) -> returns P (bind m k).
Proof.
  intros Hk s b. unfold bind, outcome.
  destruct (m s) as [[[a|e] s1] l1]; simpl; [|discriminate].
  specialize (Hk a s1 b). unfold outcome in Hk.
  destruct (k a s1) as [[o s2] l2]. exact Hk.
Qed.

Lemma returns_bind_ret {A : Type} (P : A -> Prop) (m : M S A) :
  returns P m -> returns P (bind m (fun a => ret a)).
Proof.
  intros Hm s a. unfold bind, ret, outcome. specialize (Hm s). unfold outcome in Hm.
  destruct (m s) as [[[a'|e] s1] l1]; simpl in *; [|discriminate].
  intros H. injection H as <-. apply Hm. reflexivity.
Qed.

Lemma returns_try_catch {A : Type} (P : A -> Prop) (m : M S A)
    (h : Error -> M S A) :
  returns P m -> (forall e, returns P (h e)) -> returns P (try_catch m h).
Proof.
  intros Hm Hh s a. unfold try_catch, outcome.
  specialize (Hm s a). unfold outcome in Hm.
  destruct (m s) as [[[a'|e] s1] l1]; simpl in *; [exact Hm|].
  specialize (Hh e s1 a). unfold outcome in Hh.
  destruct (h e s1) as [[o s2] l2]. exact Hh.
Qed.

End Returns.

(** ** The manifests *)

(** C6. The two descriptors are built from the service name and the image
    URL alone. The deployment has one container, with the given image,
    listening on port 8080, one replica and the label [created-by]; the
    service is a load balancer on port 80 that targets port 8080 of the
    pods labelled with the service name, and carries the same label. What
    any run of [deployToGke] hands to [kubectl apply] is the JSON text of
    these two values: the commands it runs are an initial segment of the
    four command lines, and two runs for the same name and image that
    return have applied the same descriptors, whatever the project, the
    location, the cluster, the collaborators and their state. *)
Theorem manifests_deterministic (deploymentName imgUrl : string) :
  at_path ["spec"; "template"; "spec"; "containers"]
    (deployment_manifest deploymentName imgUrl)
  = Some (Arr [Obj [("name", Str deploymentName);
                    ("image", Str imgUrl);
                    ("ports", Arr [Obj [("containerPort", Num 8080)]])]])
  /\ at_path ["spec"; "replicas"] (deployment_manifest deploymentName imgUrl)
     = Some (Num 1)
  /\ at_path ["metadata"; "labels"; "created-by"]
       (deployment_manifest deploymentName imgUrl) = Some (Str "gke-mcp")
  /\ at_path ["spec"; "template"; "metadata"; "labels"; "app"]
       (deployment_manifest deploymentName imgUrl) = Some (Str deploymentName)
  /\ at_path ["metadata"; "labels"; "created-by"] (service_manifest deploymentName)
     = Some (Str "gke-mcp")
  /\ at_path ["spec"; "type"] (service_manifest deploymentName)
     = Some (Str "LoadBalancer")
  /\ at_path ["spec"; "ports"] (service_manifest deploymentName)
     = Some (Arr [Obj [("port", Num 80); ("targetPort", Num 8080)]])
  /\ at_path ["spec"; "selector"; "app"] (service_manifest deploymentName)
     = Some (Str deploymentName)
  /\ (forall (C : Collaborators) projectId location clusterId cb (r : Remote C),
        exists k,
          commands (events (deployToGke C projectId location clusterId
                              deploymentName imgUrl cb r))
          = firstn k (command_lines projectId location clusterId
                        deploymentName imgUrl))
  /\ (forall (C1 C2 : Collaborators) p1 l1 c1 cb1 (r1 : Remote C1)
             p2 l2 c2 cb2 (r2 : Remote C2) v1 v2,
        let run1 := deployToGke C1 p1 l1 c1 deploymentName imgUrl cb1 r1 in
        let run2 := deployToGke C2 p2 l2 c2 deploymentName imgUrl cb2 r2 in
        outcome run1 = Returned v1 -> outcome run2 = Returned v2 ->
        tl (commands (events run1)) = tl (commands (events run2))
        /\ tl (commands (events run1))
           = [apply_command (deployment_manifest deploymentName imgUrl);
              apply_command (service_manifest deploymentName);
              address_command deploymentName]).
Proof.
  do 8 (split; [reflexivity|]). split.
  - intros C projectId location clusterId cb r.
    exact (proj1 (deployToGke_commands C projectId location clusterId
                    deploymentName imgUrl cb r)).
  - intros C1 C2 p1 l1 c1 cb1 r1 p2 l2 c2 cb2 r2 v1 v2 run1 run2 H1 H2.
    destruct (proj2 (deployToGke_commands C1 p1 l1 c1 deploymentName imgUrl cb1 r1)
                v1 H1) as [E1 _].
    destruct (proj2 (deployToGke_commands C2 p2 l2 c2 deploymentName imgUrl cb2 r2)
                v2 H2) as [E2 _].
    subst run1 run2. rewrite E1, E2. split; reflexivity.
Qed.

Lemma manifests_deterministic_witness :
  tl (commands (events (deployToGke (fake scenario_A) "p" "europe-west1"
                          "default-cluster" "svc" "repo/svc:latest" None [])))
  = tl (commands (events (deployToGke (fake no_address_yet) "p" "europe-west1"
                            "default-cluster" "svc" "repo/svc:latest"
                            (Some (Subscriber 1)) all_enabled))).
Proof.
  destruct (manifests_deterministic "svc" "repo/svc:latest")
    as (_ & _ & _ & _ & _ & _ & _ & _ & _ & H).
  refine (proj1 (H (fake scenario_A) (fake no_address_yet)
                   "p" "europe-west1" "default-cluster" None []
                   "p" "europe-west1" "default-cluster" (Some (Subscriber 1))
                   all_enabled
                   (Obj [("name", Str "svc"); ("url", Str "http://198.51.100.7")])
                   (Obj [("name", Str "svc"); ("url", Str "http://")])
                   _ _)).
  - vm_compute. reflexivity.
  - vm_compute. reflexivity.
Defined.

(** ** Progress notifications *)

Section Shaped.

Variable C : Collaborators.

Lemma call_binding_shaped {A : Type} (s : Stage) (identifier : string)
    (binding : option (Remote C -> Outcome A * Remote C)) :
  emits shaped (call_binding C s identifier binding).
Proof.
  unfold call_binding. destruct binding as [f|].
  - apply emits_stage; [exact I | intros e; exact I | apply emits_lift].
  - apply emits_throw.
Qed.

Lemma rethrow_shaped (label : string) (cb : option Callback) (e : Error) :
  emits shaped
    (console_error C label (Some e) ;;
     logAndProgress C (label ++ " " ++ message_text e) cb (Some "error") ;;
     @throw _ Value e).
Proof.
  unfold console_error.
  apply emits_bind; [apply emits_emit; exact I | intros _].
  apply emits_bind; [apply logAndProgress_error, plain_shaped | intros _].
  apply emits_throw.
Qed.

Lemma deployToGke_shaped projectId location clusterId deploymentName imgUrl cb :
  emits shaped (deployToGke C projectId location clusterId deploymentName imgUrl cb).
Proof.
  unfold deployToGke. apply emits_try_catch.
  - apply emits_bind.
    + apply emits_stage; [exact I | intros e; exact I |].
      apply emits_bind.
      * apply checkGkeClusterExists_plain, plain_shaped.
      * intros b. destruct (negb b); walk.
    + intros _. apply emits_stage; [exact I | intros e; exact I |]. unfold exec.
      repeat (apply emits_bind;
              [ first [ apply logAndProgress_info, plain_shaped
                      | apply emits_call; exact I ] | intros ? ]).
      apply emits_ret.
  - intro e. apply (rethrow_shaped "Error deploying to GKE:").
Qed.

Lemma deploy_shaped (args : DeployArgs) : emits shaped (deploy C args).
Proof.
  unfold deploy. apply emits_try_catch.
  - apply emits_bind.
    { apply emits_stage; [exact I | intros e; exact I |].
      apply ensureApisEnabled_plain, plain_shaped. }
    intros _.
    repeat (apply emits_bind;
            [ first [ apply call_binding_shaped | apply emits_eval
                    | apply deployToGke_shaped ] | intros ? ]).
    apply emits_ret.
  - intro e. apply (rethrow_shaped "Deployment failed:").
Qed.

End Shaped.

(** C8 (as amended). What [logAndProgress] hands to the progress callback
    is a record of two properties: [level], the severity (['info'] when
    none is given), and [data], the message. Every notification delivered
    during a deployment by the functions of the module has this shape,
    with the level ['info'] or ['error']; it has no other property, in
    particular no [timestamp]. Without a callback nothing is delivered. *)
Theorem progress_event_shape :
  (forall (C : Collaborators) message cb severity (r : Remote C),
     delivered (events (logAndProgress C message (Some cb) severity r))
     = [Obj [("level", Str (or_default "info" severity)); ("data", Str message)]])
  /\ (forall (C : Collaborators) message severity (r : Remote C),
        delivered (events (logAndProgress C message None severity r)) = [])
  /\ (forall (C : Collaborators) args (r : Remote C),
        Forall notification (delivered (events (deploy C args r))))
  /\ (forall v, notification v ->
        keys v = ["level"; "data"] /\ get "timestamp" v = None).
Proof.
  split; [|split; [|split]].
  - intros C message cb severity r. unfold logAndProgress, bind, console_error,
      console_log, emit, events.
    destruct (String.eqb (or_default "info" severity) "error"); reflexivity.
  - intros C message severity r. unfold logAndProgress, bind, console_error,
      console_log, emit, events.
    destruct (String.eqb (or_default "info" severity) "error"); reflexivity.
  - intros C args r. apply shaped_delivered. apply deploy_shaped.
  - intros v (level & message & -> & _). split; reflexivity.
Qed.

(** The first notification of a deployment has neither a [timestamp] nor a
    [severity] nor a [message] property. *)
Lemma progress_event_has_no_timestamp :
  exists v,
    delivered (events (logAndProgress (fake scenario_A)
                         "Checking and enabling required APIs..."
                         (Some (Subscriber 0)) None []))
    = [v]
    /\ get "timestamp" v = None
    /\ get "severity" v = None
    /\ get "message" v = None.
Proof. eexists. vm_compute. repeat split; reflexivity. Qed.

(** ** The shape of the file list *)

(** C9 (the code at the failing input). For a list of path strings the
    test for a Dockerfile is the expected search. As soon as the test
    reaches an entry with inline content it throws a TypeError, since such
    an entry has no [toLowerCase]; a deployment of inline files whose
    first five stages succeed stops there, before the build is triggered. *)
Theorem hasDockerfile_inline_content_throws :
  (forall paths,
     hasDockerfile (map FilePath paths)
     = Returned (existsb (fun p => endsWith (toLowerCase p) "dockerfile") paths))
  /\ (forall filename content rest,
        hasDockerfile (FileContent filename content :: rest)
        = Thrown (TypeError "file.toLowerCase is not a function"))
  /\ (let run :=
        deploy (fake scenario_A) (request [FileContent "Dockerfile" "FROM node"])
          all_enabled in
      outcome run = Thrown (TypeError "file.toLowerCase is not a function")
      /\ invoked (events run)
         = [EnableAPIs; EnsureBucket; PackageSource; UploadSource; EnsureRegistry]).
Proof.
  split; [|split].
  - induction paths as [|p paths IH]; [reflexivity|].
    unfold hasDockerfile in *. simpl.
    destruct (endsWith (toLowerCase p) "dockerfile"); [reflexivity | exact IH].
  - reflexivity.
  - vm_compute. split; reflexivity.
Qed.

(** ** Enabling the APIs twice *)

Section Idempotent.

Variable C : Collaborators.

Lemma logAndProgress_run message cb severity (r : Remote C) :
  outcome (logAndProgress C message cb severity r) = Returned tt
  /\ final (logAndProgress C message cb severity r) = r
  /\ requests (events (logAndProgress C message cb severity r)) = [].
Proof.
  unfold logAndProgress, bind, console_error, console_log, emit, ret,
    outcome, final, events.
  destruct (String.eqb (or_default "info" severity) "error"); destruct cb;
    repeat split; reflexivity.
Qed.

(** An API that is enabled already costs one read. *)
Lemma ensureApi_enabled projectId cb api (r : Remote C) :
  enabled_in C (service_name projectId api) r ->
  ensureApi C projectId cb api r
  = (Returned tt, r, [GetService (service_name projectId api)]).
Proof.
  intros (service & Hget & Hstate). unfold service_name in *.
  cbv beta zeta delta [ensureApi try_catch bind call].
  rewrite Hget, Hstate. reflexivity.
Qed.

Lemma for_each_enabled projectId cb apis (r : Remote C) :
  (forall api, In api apis -> enabled_in C (service_name projectId api) r) ->
  for_each C (ensureApi C projectId cb) apis r
  = (Returned tt, r, map (fun api => GetService (service_name projectId api)) apis).
Proof.
  induction apis as [|api apis IH]; intros H; [reflexivity|].
  simpl. unfold bind at 1.
  rewrite (ensureApi_enabled projectId cb api r (H api (or_introl eq_refl))).
  rewrite IH; [reflexivity|]. intros a Ha. apply H. right. exact Ha.
Qed.

Lemma ensureApisEnabled_enabled projectId cb apis (r : Remote C) :
  (forall api, In api apis -> enabled_in C (service_name projectId api) r) ->
  let run := ensureApisEnabled C projectId apis cb r in
  outcome run = Returned tt
  /\ final run = r
  /\ requests (events run)
     = map (fun api => GetService (service_name projectId api)) apis
  /\ enabled_requests (events run) = [].
Proof.
  intros H run. subst run. unfold ensureApisEnabled.
  destruct (logAndProgress_run "Checking and enabling required APIs..." cb None r)
    as (Ho1 & Hf1 & Hr1).
  destruct (logAndProgress_run "All required APIs are enabled." cb None r)
    as (Ho2 & Hf2 & Hr2).
  unfold bind, outcome, final, events in *.
  destruct (logAndProgress C "Checking and enabling required APIs..." cb None r)
    as [[o1 s1] l1]. simpl in *. subst o1 s1.
  rewrite (for_each_enabled projectId cb apis r H).
  destruct (logAndProgress C "All required APIs are enabled." cb None r)
    as [[o2 s2] l2]. simpl in *. subst o2 s2.
  assert (Hreads :
            forall l : list string,
              requests (map (fun api => GetService (service_name projectId api)) l)
              = map (fun api => GetService (service_name projectId api)) l
              /\ enabled_requests
                   (map (fun api => GetService (service_name projectId api)) l) = []).
  { induction l as [|a l [IH1 IH2]]; [split; reflexivity|].
    split; simpl; [f_equal; exact IH1 | exact IH2]. }
  assert (Hquiet : forall l, requests l = [] -> enabled_requests l = []).
  { induction l as [|ev l IH]; [reflexivity|].
    destruct ev; simpl; intros Hl; try discriminate Hl; apply IH; exact Hl. }
  repeat split.
  - rewrite !requests_app, Hr1, Hr2, (proj1 (Hreads apis)), app_nil_r. reflexivity.
  - rewrite !enabled_requests_app, (Hquiet l1 Hr1), (Hquiet l2 Hr2),
      (proj2 (Hreads apis)). reflexivity.
Qed.

Variable flags : ApiFlags C.

(** A successful pass over one API leaves it enabled and clears no other. *)
Lemma ensureApi_success projectId cb api (r : Remote C) :
  outcome (ensureApi C projectId cb api r) = Returned tt ->
  enabled_in C (service_name projectId api) (final (ensureApi C projectId cb api r))
  /\ (forall other,
        enabled_in C other r ->
        enabled_in C other (final (ensureApi C projectId cb api r))).
Proof.
  unfold service_name.
  pose proof (read_only C flags ("projects/" ++ projectId ++ "/services/" ++ api) r)
    as Hread.
  cbv beta zeta delta [ensureApi try_catch bind call outcome final].
  destruct (getService C ("projects/" ++ projectId ++ "/services/" ++ api) r)
    as [[service|e] r0] eqn:Hget; simpl in Hread; subst r0.
  - destruct (String.eqb (state service) "ENABLED") eqn:Hstate; cbn -[append].
    + intros _. split; [|intros other Ho; exact Ho].
      exists service. split; [exact Hget | apply String.eqb_eq; exact Hstate].
    + destruct cb; cbn -[append];
        (destruct (enableService C _ r) as [[operation|e] r1] eqn:Henable;
         cbn -[append];
         [ destruct (operation_promise C operation r1) as [[[]|e] r2] eqn:Hpromise;
           cbn -[append];
           [ intros _; split;
             [ exact (enable_effective C flags _ _ _ _ _ Henable Hpromise)
             | intros other Ho;
               apply (promise_keeps C flags operation other r1 r2);
               [ exact (enable_keeps C flags _ other r operation r1 Ho Henable)
               | exact Hpromise ] ]
           | intros H; discriminate H ]
         | intros H; discriminate H ]).
  - cbn -[append]. destruct cb; cbn -[append]; intros H; discriminate H.
Qed.

Lemma for_each_success projectId cb apis (r : Remote C) :
  outcome (for_each C (ensureApi C projectId cb) apis r) = Returned tt ->
  let r' := final (for_each C (ensureApi C projectId cb) apis r) in
  (forall api, In api apis -> enabled_in C (service_name projectId api) r')
  /\ (forall other, enabled_in C other r -> enabled_in C other r').
Proof.
  revert r. induction apis as [|api apis IH]; intros r.
  - intros _. split; [intros api []|]. intros other H. exact H.
  - simpl. pose proof (ensureApi_success projectId cb api r) as Hone.
    unfold bind, outcome, final in *.
    destruct (ensureApi C projectId cb api r) as [[[[]|e] r1] l1]; simpl in *;
      [|intros H; discriminate H].
    destruct (Hone eq_refl) as [Hthis Hkeep].
    specialize (IH r1).
    destruct (for_each C (ensureApi C projectId cb) apis r1) as [[o r2] l2].
    simpl in *. intros Ho. destruct (IH Ho) as [Hall Hkeep2]. split.
    + intros a [<-|Ha]; [apply Hkeep2; exact Hthis | apply Hall; exact Ha].
    + intros other H. apply Hkeep2, Hkeep. exact H.
Qed.

Lemma ensureApisEnabled_success projectId cb apis (r : Remote C) :
  outcome (ensureApisEnabled C projectId apis cb r) = Returned tt ->
  forall api, In api apis ->
    enabled_in C (service_name projectId api)
      (final (ensureApisEnabled C projectId apis cb r)).
Proof.
  unfold ensureApisEnabled.
  destruct (logAndProgress_run "Checking and enabling required APIs..." cb None r)
    as (Ho1 & Hf1 & _).
  pose proof (for_each_success projectId cb apis r) as Hloop.
  pose proof (logAndProgress_run "All required APIs are enabled." cb None) as Hlast.
  unfold bind, outcome, final in *.
  destruct (logAndProgress C "Checking and enabling required APIs..." cb None r)
    as [[o1 s1] l1]. simpl in *. subst o1 s1.
  destruct (for_each C (ensureApi C projectId cb) apis r) as [[[[]|e] r1] l2];
    simpl in *; [|intros H; discriminate H].
  destruct (Hlast r1) as (Ho2 & Hf2 & _).
  destruct (logAndProgress C "All required APIs are enabled." cb None r1)
    as [[o2 s2] l3]. simpl in *. subst o2 s2.
  intros _. exact (proj1 (Hloop eq_refl)).
Qed.

End Idempotent.

(** C4. [ensureApisEnabled] is idempotent against a Service Usage
    collaborator that behaves like a set of flags. When every API of the
    list reads as ENABLED, the call returns, leaves the state as it is, and
    sends one read per API and no [enableService]. After a call that
    returned, a second call with the same arguments is such a call: it
    returns the same value, changes nothing and enables nothing. *)
Theorem ensureApisEnabled_idempotent
    (C : Collaborators) (flags : ApiFlags C)
    (projectId : string) (apis : list string) (cb : option Callback) :
  (forall r,
     (forall api, In api apis -> enabled_in C (service_name projectId api) r) ->
     let run := ensureApisEnabled C projectId apis cb r in
     outcome run = Returned tt
     /\ final run = r
     /\ requests (events run)
        = map (fun api => GetService (service_name projectId api)) apis
     /\ enabled_requests (events run) = [])
  /\ (forall r,
        let first := ensureApisEnabled C projectId apis cb r in
        outcome first = Returned tt ->
        let second := ensureApisEnabled C projectId apis cb (final first) in
        outcome second = outcome first
        /\ final second = final first
        /\ requests (events second)
           = map (fun api => GetService (service_name projectId api)) apis
        /\ enabled_requests (events second) = []).
Proof.
  split.
  - intros r H. exact (ensureApisEnabled_enabled C projectId cb apis r H).
  - intros r first Hfirst second.
    pose proof (ensureApisEnabled_success C flags projectId cb apis r Hfirst) as Hall.
    destruct (ensureApisEnabled_enabled C projectId cb apis (final first) Hall)
      as (Ho & Hf & Hr & He).
    subst second. rewrite Hfirst. repeat split; assumption.
Qed.

(** The test double behaves like a set of flags. *)
Lemma fake_flags : ApiFlags (fake scenario_A).
Proof.
  assert (Hmem : forall name (r : Remote (fake scenario_A)),
            enabled_in (fake scenario_A) name r <-> mem name r = true).
  { intros name r. unfold enabled_in. simpl. split.
    - intros (service & Hget & Hstate). injection Hget as <-. simpl in Hstate.
      destruct (mem name r); [reflexivity | discriminate Hstate].
    - intros H. rewrite H. eexists. split; reflexivity. }
  constructor.
  - intros name r. reflexivity.
  - intros name other r operation r1 Ho Henable. simpl in Henable.
    injection Henable as _ <-. apply Hmem. apply Hmem in Ho.
    unfold mem in *. simpl. rewrite Ho. apply orb_true_r.
  - intros operation other r r1 Ho Hpromise. simpl in Hpromise.
    injection Hpromise as <-. exact Ho.
  - intros name r operation r1 r2 Henable Hpromise. simpl in Henable, Hpromise.
    injection Henable as _ <-. injection Hpromise as <-. apply Hmem.
    unfold mem. simpl. rewrite String.eqb_refl. reflexivity.
Qed.

Lemma ensureApisEnabled_idempotent_witness :
  let first := ensureApisEnabled (fake scenario_A) "p" REQUIRED_APIS None [] in
  let second := ensureApisEnabled (fake scenario_A) "p" REQUIRED_APIS None (final first) in
  outcome second = outcome first
  /\ final second = final first
  /\ requests (events second)
     = map (fun api => GetService (service_name "p" api)) REQUIRED_APIS
  /\ enabled_requests (events second) = [].
Proof.
  refine (proj2 (ensureApisEnabled_idempotent (fake scenario_A) fake_flags
                   "p" REQUIRED_APIS None) [] _).
  vm_compute. reflexivity.
Defined.

Lemma progress_event_shape_witness :
  keys (Obj [("level", Str "info"); ("data", Str "All required APIs are enabled.")])
  = ["level"; "data"]
  /\ get "timestamp"
       (Obj [("level", Str "info"); ("data", Str "All required APIs are enabled.")])
     = None.
Proof.
  refine (proj2 (proj2 (proj2 progress_event_shape)) _ _).
  exists "info", "All required APIs are enabled.". split; [reflexivity | left; reflexivity].
Defined.

(** ** The handler of [create_project] *)




(** ** Examples *)

Example stringify_sample :
  stringify (Obj [("port", Num 80); ("tags", Arr [Str "a"; Str "b"])])
  = "{" ++ dq ++ "port" ++ dq ++ ":80," ++ dq ++ "tags" ++ dq ++ ":["
        ++ dq ++ "a" ++ dq ++ "," ++ dq ++ "b" ++ dq ++ "]}".
Proof. reflexivity. Qed.

Example string_methods_sample :
  endsWith (toLowerCase "src/Dockerfile") "dockerfile" = true
  /\ endsWith (toLowerCase "index.js") "dockerfile" = false
  /\ trim "  a b  " = "a b" /\ trim "   " = empty.
Proof. repeat split; reflexivity. Qed.

(** The no-break space U+00A0 is white space for [trim]: a [projectId] made
    of it is blank and is answered with the validation message. *)
Example no_break_space_is_blank :
  let nbsp := String "160"%char EmptyString in
  trim (nbsp ++ "a" ++ nbsp) = "a"
  /\ Tools.rejected (Some nbsp) = true
  /\ Tools.rejected (Some (" " ++ nbsp)) = true.
Proof. vm_compute. repeat split; reflexivity. Qed.

(** Scenario A of section 8 of the design: nothing is enabled or created,
    and the result carries the address of the first query. *)
Example scenario_A_run :
  let run := deploy (fake scenario_A) (request [FilePath "/app/Dockerfile"]) all_enabled in
  outcome run
  = Returned (Obj [("name", Str "app"); ("url", Str "http://198.51.100.7")])
  /\ enabled_requests (events run) = []
  /\ invoked (events run) = all_stages.
Proof. vm_compute. repeat split; reflexivity. Qed.

(** Scenario B: an API that is disabled is enabled once. *)
Example scenario_B_run :
  let run :=
    deploy (fake scenario_A) (request [FilePath "/app/Dockerfile"])
      (tl all_enabled) in
  enabled_requests (events run) = ["projects/p/services/iam.googleapis.com"]
  /\ invoked (events run) = all_stages.
Proof. vm_compute. split; reflexivity. Qed.

(** The module as the file has it: the second stage is a call of an
    identifier without binding. *)
Example as_written_run :
  let run := deploy (fake as_written) (request [FilePath "/app/Dockerfile"]) all_enabled in
  outcome run = Thrown (ReferenceError "ensureStorageBucketExists")
  /\ invoked (events run) = [EnableAPIs].
Proof. vm_compute. split; reflexivity. Qed.

(** ** The order of the stages, on the collaborators *)

Section Run.

Context {S : Type}.

Lemma run_bind {A B : Type} (m : M S A) (k : A -> M S B) (s : S) :
  run (bind m k) s = and_then (run m) (fun a => run (k a)) s.
Proof.
  unfold run, and_then, bind, outcome, final.
  destruct (m s) as [[[a|e] s1] l1]; cbn [fst snd]; [|reflexivity].
  destruct (k a s1) as [[o s2] l2]. reflexivity.
Qed.

Lemma run_stage {A : Type} (st : Stage) (m : M S A) (s : S) :
  run (stage st m) s = run m s.
Proof.
  unfold run, stage, outcome, final. destruct (m s) as [[[a|e] s1] l1]; reflexivity.
Qed.

Lemma run_lift {A : Type} (f : S -> Outcome A * S) (s : S) : run (lift f) s = f s.
Proof. unfold run, lift, outcome, final. destruct (f s). reflexivity. Qed.

Lemma run_call {A : Type} (ev : Event) (f : S -> Outcome A * S) (s : S) :
  run (call ev f) s = f s.
Proof. unfold run, call, outcome, final. destruct (f s). reflexivity. Qed.

(** A handler that throws what it caught and leaves the state. *)
Lemma run_try_rethrow {A : Type} (m : M S A) (h : Error -> M S A) (s : S) :
  (forall e s1, run (h e) s1 = (Thrown e, s1)) ->
  run (try_catch m h) s = run m s.
Proof.
  intros Hh. unfold run, try_catch, outcome, final in *.
  destruct (m s) as [[[a|e] s1] l1]; cbn [fst snd]; [reflexivity|].
  specialize (Hh e s1). destruct (h e s1) as [[o s2] l2]. exact Hh.
Qed.

Lemma and_then_ext {A B : Type} (m m' : St S A) (k k' : A -> St S B) (s : S) :
  m s = m' s -> (forall a s1, k a s1 = k' a s1) ->
  and_then m k s = and_then m' k' s.
Proof.
  intros Hm Hk. unfold and_then. rewrite Hm.
  destruct (m' s) as [[a|e] s1]; [apply Hk | reflexivity].
Qed.

Lemma and_then_done {A : Type} (m : St S A) (s : S) :
  and_then m (fun a => done a) s = m s.
Proof. unfold and_then, done. destruct (m s) as [[a|e] s1]; reflexivity. Qed.

End Run.

Lemma and_then_fail {S A B : Type} (m : St S A) (k : A -> St S B)
    (s s1 : S) (e : Error) :
  m s = (Thrown e, s1) -> and_then m k s = (Thrown e, s1).
Proof. intros H. unfold and_then. rewrite H. reflexivity. Qed.

Lemma hasDockerfile_paths (paths : list string) :
  hasDockerfile (map FilePath paths)
  = Returned (existsb (fun p => endsWith (toLowerCase p) "dockerfile") paths).
Proof.
  induction paths as [|p paths IH]; [reflexivity|].
  unfold hasDockerfile in *. simpl.
  destruct (endsWith (toLowerCase p) "dockerfile"); [reflexivity | exact IH].
Qed.

Section RunDeploy.

Variable C : Collaborators.

Lemma run_logAndProgress message cb severity (r : Remote C) :
  run (logAndProgress C message cb severity) r = (Returned tt, r).
Proof.
  destruct (logAndProgress_run C message cb severity r) as (Ho & Hf & _).
  unfold run. rewrite Ho, Hf. reflexivity.
Qed.

Lemma run_report {A : Type} label detail message cb severity (e : Error)
    (r : Remote C) :
  run (console_error C label detail ;;
       logAndProgress C message cb severity ;;
       @throw _ A e) r = (Thrown e, r).
Proof.
  rewrite run_bind. unfold and_then at 1. unfold console_error.
  change (run (emit (ConsoleError label detail)) r) with (Returned tt, r).
  cbv beta iota. rewrite run_bind. unfold and_then.
  rewrite run_logAndProgress. reflexivity.
Qed.

(** [deployToGke] is the cluster check, its guard and the four commands,
    one after the other. *)
Lemma deployToGke_run projectId location clusterId deploymentName imgUrl cb
    (r : Remote C) :
  run (deployToGke C projectId location clusterId deploymentName imgUrl cb) r
  = and_then (run (checkGkeClusterExists C projectId location clusterId cb))
      (fun found =>
         if negb found
         then fail (new_Error ("GKE cluster " ++ clusterId
                                 ++ " does not exist. Please create it first."))
         else
           and_then (execPromise C (credentials_command projectId location clusterId))
             (fun _ =>
           and_then (execPromise C
                       (apply_command (deployment_manifest deploymentName imgUrl)))
             (fun _ =>
           and_then (execPromise C (apply_command (service_manifest deploymentName)))
             (fun _ =>
           and_then (execPromise C (address_command deploymentName))
             (fun out =>
           done (Obj [("name", Str deploymentName);
                      ("url", Str ("http://" ++ stdout out))])))))) r.
Proof.
  unfold deployToGke. rewrite run_try_rethrow by (intros; apply run_report).
  rewrite run_bind. unfold and_then at 1 2. rewrite run_stage, run_bind.
  unfold and_then at 1.
  destruct (run (checkGkeClusterExists C projectId location clusterId cb) r)
    as [[found|e] r1]; [|reflexivity].
  destruct found; cbn [negb]; [|reflexivity].
  change (run (ret tt) r1) with (@Returned unit tt, r1). cbv beta iota.
  rewrite run_stage, run_bind. unfold and_then at 1.
  rewrite run_logAndProgress. cbv beta iota. unfold exec, apply_command.
  rewrite run_bind. apply and_then_ext; [apply run_call|]. intros _ r2.
  rewrite run_bind. unfold and_then at 1. rewrite run_logAndProgress. cbv beta iota.
  rewrite run_bind. apply and_then_ext; [apply run_call|]. intros _ r3.
  rewrite run_bind. apply and_then_ext; [apply run_call|]. intros _ r4.
  rewrite run_bind. apply and_then_ext; [apply run_call|]. intros out r5.
  rewrite run_bind. unfold and_then. rewrite run_logAndProgress. reflexivity.
Qed.

Lemma run_call_binding {A : Type} (st : Stage) (identifier : string)
    (f : Remote C -> Outcome A * Remote C) (r : Remote C) :
  run (call_binding C st identifier (Some f)) r = f r.
Proof. unfold call_binding. rewrite run_stage. apply run_lift. Qed.

(** [deploy], bound to the functions it calls, is their composition in the
    order of the design up to the registry; what follows depends on the
    test for a Dockerfile. *)
Lemma deploy_run f1 f2 f3 f4 f5 (args : DeployArgs) (r : Remote C) :
  ensureStorageBucketExists C = Some f1 ->
  zipFiles C = Some f2 ->
  uploadToStorageBucket C = Some f3 ->
  ensureArtifactRegistryRepoExists C = Some f4 ->
  triggerCloudBuild C = Some f5 ->
  run (deploy C args) r
  = provision_then C f1 f2 f3 f4 args
      (fun repository =>
         match hasDockerfile (files args) with
         | Returned dockerfile =>
             build_and_release C f5 args dockerfile repository
         | Thrown e => fail e
         end) r.
Proof.
  intros H1 H2 H3 H4 H5. unfold deploy, provision_then.
  rewrite H1, H2, H3, H4, H5. cbn [option_map].
  rewrite run_try_rethrow by (intros; apply run_report).
  rewrite run_bind. apply and_then_ext; [apply run_stage|]. intros _ r1.
  rewrite run_bind. apply and_then_ext; [apply run_call_binding|]. intros bucket r2.
  rewrite run_bind. apply and_then_ext; [apply run_call_binding|]. intros archive r3.
  rewrite run_bind. apply and_then_ext; [apply run_call_binding|]. intros _ r4.
  rewrite run_bind. apply and_then_ext; [apply run_call_binding|]. intros repo r5.
  rewrite run_bind. unfold and_then at 1.
  destruct (hasDockerfile (files args)) as [dockerfile|e]; [|reflexivity].
  change (run (eval (Returned dockerfile)) r5) with (Returned dockerfile, r5).
  cbv beta iota. unfold build_and_release.
  rewrite run_bind. apply and_then_ext; [apply run_call_binding|]. intros _ r6.
  rewrite run_bind.
  change (fun a : Value => run (ret a)) with (fun a : Value => @done (Remote C) _ a).
  rewrite and_then_done. apply deployToGke_run.
Qed.

End RunDeploy.

(** C1. With the five functions [deploy] calls bound, a deployment is the
    composition of the collaborators' calls, each run in the state the one
    before left and none run once one has thrown. For a list of path
    strings that composition is the eight stages in the order EnableAPIs,
    EnsureBucket, PackageSource, UploadSource, EnsureRegistry, TriggerBuild,
    EnsureCluster, ApplyManifests, the build being told whether a path ends
    in "dockerfile". For a list that starts with an inline entry it is the
    first five stages only: although all five have returned, the run then
    throws the TypeError of the test for a Dockerfile, and neither the
    build nor the cluster check nor any command is run. With
    [ensureStorageBucketExists] unbound, as in the file itself, the run is
    EnableAPIs followed by a ReferenceError. *)
Theorem deploy_stage_sequence
    (C : Collaborators) (args : DeployArgs) (r : Remote C) :
  (forall f1 f2 f3 f4 f5,
     ensureStorageBucketExists C = Some f1 ->
     zipFiles C = Some f2 ->
     uploadToStorageBucket C = Some f3 ->
     ensureArtifactRegistryRepoExists C = Some f4 ->
     triggerCloudBuild C = Some f5 ->
     (forall paths,
        files args = map FilePath paths ->
        run (deploy C args) r
        = provision_then C f1 f2 f3 f4 args
            (build_and_release C f5 args
               (existsb (fun p => endsWith (toLowerCase p) "dockerfile") paths)) r)
     /\ (forall filename content rest,
           files args = FileContent filename content :: rest ->
           run (deploy C args) r
           = provision_then C f1 f2 f3 f4 args
               (fun _ => fail (TypeError "file.toLowerCase is not a function")) r))
  /\ (ensureStorageBucketExists C = None ->
      run (deploy C args) r
      = and_then
          (run (ensureApisEnabled C (projectId args) REQUIRED_APIS
                  (progressCallback args)))
          (fun _ => fail (ReferenceError "ensureStorageBucketExists")) r).
Proof.
  split.
  - intros f1 f2 f3 f4 f5 H1 H2 H3 H4 H5.
    pose proof (deploy_run C f1 f2 f3 f4 f5 args r H1 H2 H3 H4 H5) as Hrun.
    split.
    + intros paths Hfiles. rewrite Hfiles, hasDockerfile_paths in Hrun. exact Hrun.
    + intros filename content rest Hfiles. rewrite Hfiles in Hrun. exact Hrun.
  - intros Hunbound. unfold deploy. rewrite Hunbound. cbn [option_map call_binding].
    rewrite run_try_rethrow by (intros; apply run_report).
    rewrite run_bind. apply and_then_ext; [apply run_stage|]. intros _ r1.
    reflexivity.
Qed.

Lemma deploy_stage_sequence_witness :
  run (deploy journal (request [FilePath "/app/Dockerfile"])) []
  = (Returned (Obj [("name", Str "app"); ("url", Str "http://198.51.100.7")]),
     (journal_of_provision ++ journal_of_release)%list)
  /\ run (deploy journal (request [FileContent "Dockerfile" "FROM node"])) []
     = (Thrown (TypeError "file.toLowerCase is not a function"),
        journal_of_provision).
Proof.
  split.
  - rewrite (proj1 (proj1 (deploy_stage_sequence journal
                             (request [FilePath "/app/Dockerfile"]) [])
                      _ _ _ _ _ eq_refl eq_refl eq_refl eq_refl eq_refl)
               ["/app/Dockerfile"] eq_refl).
    vm_compute. reflexivity.
  - rewrite (proj2 (proj1 (deploy_stage_sequence journal
                             (request [FileContent "Dockerfile" "FROM node"]) [])
                      _ _ _ _ _ eq_refl eq_refl eq_refl eq_refl eq_refl)
               "Dockerfile" "FROM node" [] eq_refl).
    vm_compute. reflexivity.
Defined.

(** A stage that throws ends the composition: what follows it is not run
    and its error is the outcome. *)
Example fail_fast_journal :
  let upload_denied :=
    fun (_ _ : unit) (_ : string) (_ : option Callback) (r : list string) =>
      (@Thrown unit denied, (r ++ ["uploadToStorageBucket"])%list) in
  provision_then journal
    (fun _ _ _ => note "ensureStorageBucketExists" tt)
    (fun _ _ => note "zipFiles" tt)
    upload_denied
    (fun _ _ _ _ _ => note "ensureArtifactRegistryRepoExists" "repo")
    (request [FilePath "/app/Dockerfile"])
    (build_and_release journal (fun _ _ _ _ _ _ _ _ => note "triggerCloudBuild" tt)
       (request [FilePath "/app/Dockerfile"]) true) []
  = (Thrown denied,
     (concat (map (fun _ => ["getService"; "enableService"; "operation.promise"])
                REQUIRED_APIS)
      ++ ["ensureStorageBucketExists"; "zipFiles"; "uploadToStorageBucket"])%list).
Proof. vm_compute. reflexivity. Qed.

(** ** What a deployment returns *)

Section ReturnsIn.

Context {S : Type}.

Lemma returns_in_throw {A : Type} (P : A -> S -> Prop) (e : Error) :
  returns_in P (throw e).
Proof. intros s a H. discriminate H. Qed.

Lemma returns_in_bind {A B : Type} (P : B -> S -> Prop) (m : M S A)
    (k : A -> M S B) :
  (forall a, returns_in P (k a)) -> returns_in P (bind m k).
Proof.
  intros Hk s b. unfold bind, outcome, final.
  destruct (m s) as [[[a|e] s1] l1]; simpl; [|discriminate].
  specialize (Hk a s1 b). unfold outcome, final in Hk.
  destruct (k a s1) as [[o s2] l2]. exact Hk.
Qed.

Lemma returns_in_bind_ret {A : Type} (P : A -> S -> Prop) (m : M S A) :
  returns_in P m -> returns_in P (bind m (fun a => ret a)).
Proof.
  intros Hm s a. unfold bind, ret, outcome, final.
  specialize (Hm s). unfold outcome, final in Hm.
  destruct (m s) as [[[a'|e] s1] l1]; simpl in *; [|discriminate].
  intros H. injection H as <-. apply Hm. reflexivity.
Qed.

Lemma returns_in_try_catch {A : Type} (P : A -> S -> Prop) (m : M S A)
    (h : Error -> M S A) :
  returns_in P m -> (forall e, returns_in P (h e)) -> returns_in P (try_catch m h).
Proof.
  intros Hm Hh s a. unfold try_catch, outcome, final.
  specialize (Hm s a). unfold outcome, final in Hm.
  destruct (m s) as [[[a'|e] s1] l1]; simpl in *; [exact Hm|].
  specialize (Hh e s1 a). unfold outcome, final in Hh.
  destruct (h e s1) as [[o s2] l2]. exact Hh.
Qed.

End ReturnsIn.

(** A [deployToGke] that returns has put the output of its address query
    into the record: the query is the last call, so the state it left is
    the state of the run. *)
Lemma deployToGke_returns_address (C : Collaborators)
    (projectId location clusterId deploymentName imgUrl : string)
    (cb : option Callback) :
  returns_in
    (fun v s =>
       exists before out,
         execPromise C (address_command deploymentName) before = (Returned out, s)
         /\ v = Obj [("name", Str deploymentName);
                     ("url", Str ("http://" ++ stdout out))])
    (deployToGke C projectId location clusterId deploymentName imgUrl cb).
Proof.
  intros r v H.
  pose proof (deployToGke_run C projectId location clusterId deploymentName
                imgUrl cb r) as E.
  unfold run at 1 in E. rewrite H in E. symmetry in E. revert E.
  unfold and_then, fail, done.
  destruct (run (checkGkeClusterExists C projectId location clusterId cb) r)
    as [[found|e] r1]; [|discriminate].
  destruct found; cbn [negb]; [|discriminate].
  destruct (execPromise C (credentials_command projectId location clusterId) r1)
    as [[x2|e] r2]; [|discriminate].
  destruct (execPromise C (apply_command (deployment_manifest deploymentName imgUrl)) r2)
    as [[x3|e] r3]; [|discriminate].
  destruct (execPromise C (apply_command (service_manifest deploymentName)) r3)
    as [[x4|e] r4]; [|discriminate].
  destruct (execPromise C (address_command deploymentName) r4)
    as [[out|e] r5] eqn:Haddress; [|discriminate].
  intros E. injection E as <- <-. exists r4, out. split; [exact Haddress | reflexivity].
Qed.

(** C5 (as amended). What a successful deployment returns is a record of
    two properties, [name] and [url]: [name] holds the service name
    (['app'] when the request gives none) and [url] holds ["http://"]
    followed by what the address query printed. The query is the call of
    [execPromise] with the address command of the service that left the
    state in which the deployment ended, and [out] is what it returned. *)
Theorem deploy_result_fields
    (C : Collaborators) (args : DeployArgs) (r : Remote C) (v : Value) :
  outcome (deploy C args r) = Returned v ->
  (exists before out,
     execPromise C (address_command (or_default "app" (serviceName args))) before
     = (Returned out, final (deploy C args r))
     /\ v = Obj [("name", Str (or_default "app" (serviceName args)));
                 ("url", Str ("http://" ++ stdout out))])
  /\ keys v = ["name"; "url"].
Proof.
  intros H.
  assert (Hres : exists before out,
             execPromise C (address_command (or_default "app" (serviceName args)))
               before
             = (Returned out, final (deploy C args r))
             /\ v = Obj [("name", Str (or_default "app" (serviceName args)));
                         ("url", Str ("http://" ++ stdout out))]).
  { revert r v H.
    change (returns_in
              (fun v s =>
                 exists before out,
                   execPromise C
                     (address_command (or_default "app" (serviceName args))) before
                   = (Returned out, s)
                   /\ v = Obj [("name", Str (or_default "app" (serviceName args)));
                               ("url", Str ("http://" ++ stdout out))])
              (deploy C args)).
    unfold deploy. apply returns_in_try_catch.
    - do 7 (apply returns_in_bind; intro).
      apply returns_in_bind_ret, deployToGke_returns_address.
    - intro e. repeat (apply returns_in_bind; intro). apply returns_in_throw. }
  split; [exact Hres|]. destruct Hres as (before & out & _ & ->). reflexivity.
Qed.

Lemma deploy_result_fields_witness :
  let run :=
    deploy (fake scenario_A) (request [FilePath "/app/Dockerfile"]) all_enabled in
  (exists before out,
     execPromise (fake scenario_A) (address_command "app") before
     = (Returned out, final run)
     /\ Obj [("name", Str "app"); ("url", Str "http://198.51.100.7")]
        = Obj [("name", Str "app"); ("url", Str ("http://" ++ stdout out))])
  /\ keys (Obj [("name", Str "app"); ("url", Str "http://198.51.100.7")])
     = ["name"; "url"].
Proof.
  apply (deploy_result_fields (fake scenario_A)
           (request [FilePath "/app/Dockerfile"]) all_enabled
           (Obj [("name", Str "app"); ("url", Str "http://198.51.100.7")])).
  vm_compute. reflexivity.
Defined.

(** Scenario A returns a record that has no property [serviceName]. *)
Lemma deploy_result_has_no_serviceName :
  exists v,
    outcome (deploy (fake scenario_A) (request [FilePath "/app/Dockerfile"]) all_enabled)
    = Returned v
    /\ get "serviceName" v = None
    /\ keys v = ["name"; "url"].
Proof. eexists. vm_compute. repeat split; reflexivity. Qed.

(** * More properties *)

(** ** Strings *)

Lemma append_assoc (a b c : string) : (a ++ b) ++ c = a ++ (b ++ c).
Proof. induction a as [|x a IH]; simpl; [reflexivity | f_equal; exact IH]. Qed.

Lemma append_empty_r (a : string) : a ++ empty = a.
Proof. induction a as [|x a IH]; simpl; [reflexivity | f_equal; exact IH]. Qed.

Lemma length_append (a b : string) :
  String.length (a ++ b) = String.length a + String.length b.
Proof. induction a as [|x a IH]; simpl; [reflexivity | f_equal; exact IH]. Qed.

Lemma substring_whole (s : string) : substring 0 (String.length s) s = s.
Proof. induction s as [|x s IH]; simpl; [reflexivity | f_equal; exact IH]. Qed.

Lemma substring_skip (p s : string) (m : nat) :
  substring (String.length p) m (p ++ s) = substring 0 m s.
Proof. induction p as [|x p IH]; simpl; [reflexivity | exact IH]. Qed.

Lemma substring_split (s : string) (n m : nat) :
  n + m = String.length s -> s = substring 0 n s ++ substring n m s.
Proof.
  revert n. induction s as [|x s IH]; intros n H; simpl in H.
  - destruct n; [|discriminate H]. destruct m; [reflexivity | discriminate H].
  - destruct n as [|n]; simpl.
    + destruct m as [|m]; [discriminate H|]. injection H as H. simpl.
      f_equal. subst m. symmetry. apply substring_whole.
    + injection H as H. f_equal. apply IH. exact H.
Qed.

(** [endsWith] is what its name says. *)
Lemma endsWith_spec (s suffix : string) :
  endsWith s suffix = true <-> exists before, s = before ++ suffix.
Proof.
  unfold endsWith. split.
  - destruct (String.length suffix <=? String.length s)%nat eqn:Hle;
      [|discriminate]. apply Nat.leb_le in Hle. intros H.
    apply String.eqb_eq in H.
    exists (substring 0 (String.length s - String.length suffix) s).
    pose proof (substring_split s (String.length s - String.length suffix)
                  (String.length suffix) ltac:(lia)) as Hs.
    rewrite H in Hs. exact Hs.
  - intros (before & ->). rewrite length_append.
    replace (String.length suffix <=? String.length before + String.length suffix)%nat
      with true by (symmetry; apply Nat.leb_le; lia).
    replace (String.length before + String.length suffix - String.length suffix)
      with (String.length before) by lia.
    rewrite substring_skip, substring_whole. apply String.eqb_refl.
Qed.

Lemma split_cons (c : ascii) (s : string) :
  exists segment segments, split c s = segment :: segments.
Proof.
  induction s as [|x s (segment & segments & IH)]; simpl.
  - eexists _, _. reflexivity.
  - destruct (Ascii.eqb x c); [eexists _, _; reflexivity|].
    rewrite IH. eexists _, _. reflexivity.
Qed.

Lemma split_free (c : ascii) (s : string) : free_of c s -> split c s = [s].
Proof.
  induction s as [|x s IH]; simpl; [reflexivity|]. intros [Hx Hs].
  destruct (Ascii.eqb x c) eqn:E.
  - apply Ascii.eqb_eq in E. contradiction.
  - rewrite (IH Hs). reflexivity.
Qed.

Lemma pop_text_cons (x y : string) (l : list string) :
  pop_text (x :: y :: l) = pop_text (y :: l).
Proof.
  unfold pop_text. simpl. destruct (rev l) as [|z tl]; reflexivity.
Qed.

Lemma split_two (c : ascii) (before s : string) :
  exists a b l, split c (before ++ String c s) = a :: b :: l.
Proof.
  induction before as [|x before (a & b & l & IH)]; simpl.
  - rewrite Ascii.eqb_refl. destruct (split_cons c s) as (seg & segs & ->).
    eexists _, _, _. reflexivity.
  - rewrite IH. destruct (Ascii.eqb x c); eexists _, _, _; reflexivity.
Qed.

(** The last segment of [before ++ c ++ s] is that of [s]. *)
Lemma pop_split_after (c : ascii) (before s : string) :
  pop_text (split c (before ++ String c s)) = pop_text (split c s).
Proof.
  induction before as [|x before IH]; simpl.
  - rewrite Ascii.eqb_refl. destruct (split_cons c s) as (seg & segs & ->).
    apply pop_text_cons.
  - destruct (split_two c before s) as (a & b & l & E). rewrite E in *.
    rewrite pop_text_cons in IH.
    destruct (Ascii.eqb x c); rewrite !pop_text_cons; exact IH.
Qed.

Lemma split_segments_free (c : ascii) (s : string) :
  Forall (free_of c) (split c s).
Proof.
  induction s as [|x s IH]; simpl.
  - repeat constructor.
  - destruct (Ascii.eqb x c) eqn:E.
    + constructor; [exact I | exact IH].
    + destruct (split c s) as [|seg segs]; [repeat constructor|].
      * intros ->. rewrite Ascii.eqb_refl in E. discriminate E.
      * inversion IH as [|? ? Hseg Hsegs]; subst. constructor; [|exact Hsegs].
        split; [|exact Hseg]. intros ->. rewrite Ascii.eqb_refl in E.
        discriminate E.
Qed.

Lemma pop_text_In (l : list string) : l <> [] -> In (pop_text l) l.
Proof.
  intros H. unfold pop_text. destruct (rev l) as [|x tl] eqn:E.
  - destruct l; [contradiction|]. apply (f_equal (@List.length string)) in E.
    rewrite length_rev in E. discriminate E.
  - apply in_rev. rewrite E. left. reflexivity.
Qed.

(** ** The test for a Dockerfile *)

(** X1. On a list that mixes the two shapes the test looks at the entries
    in order and stops at the first that decides: it returns [true] when a
    path before the first inline entry ends in "dockerfile", and throws the
    TypeError at the first inline entry otherwise; what comes after that
    entry is never looked at. *)
Theorem hasDockerfile_mixed_list
    (paths : list string) (filename content : string) (rest : list FileEntry) :
  hasDockerfile (map FilePath paths ++ FileContent filename content :: rest)%list
  = if existsb (fun p => endsWith (toLowerCase p) "dockerfile") paths
    then Returned true
    else Thrown (TypeError "file.toLowerCase is not a function").
Proof.
  induction paths as [|p paths IH]; [reflexivity|].
  unfold hasDockerfile in *. simpl.
  destruct (endsWith (toLowerCase p) "dockerfile"); [reflexivity | exact IH].
Qed.

(** X2. For path strings the test returns, and it returns [true] exactly
    when some path, put in lower case, ends with the ten characters
    "dockerfile": the letters may be in any case, and any text may come
    before them, a directory or not. *)
Theorem hasDockerfile_suffix (paths : list string) :
  exists found,
    hasDockerfile (map FilePath paths) = Returned found
    /\ (found = true <->
        exists path before,
          In path paths /\ toLowerCase path = before ++ "dockerfile").
Proof.
  eexists. split; [apply hasDockerfile_paths|].
  rewrite existsb_exists. split.
  - intros (path & Hin & Hends). apply endsWith_spec in Hends.
    destruct Hends as (before & Hb). exists path, before. split; assumption.
  - intros (path & before & Hin & Hb). exists path. split; [exact Hin|].
    apply endsWith_spec. exists before. exact Hb.
Qed.

(** ** Bounds on the events of the pipeline, for any predicate *)

Section Output.

Variable C : Collaborators.
Variable P : Event -> Prop.
Variable cb : option Callback.
Hypothesis Hout : output_ok P cb.

Lemma logAndProgress_output message severity :
  emits P (logAndProgress C message cb severity).
Proof.
  destruct Hout as (Hlog & Herr & Hprog).
  unfold logAndProgress, console_log, console_error.
  apply emits_bind.
  - destruct (String.eqb _ _); apply emits_emit; [apply Herr | apply Hlog].
  - intros _. destruct cb as [c|] eqn:E; [|apply emits_ret].
    apply emits_emit. apply (Hprog c). reflexivity.
Qed.

Lemma rethrow_output {A : Type} (label message : string) (e : Error) :
  emits P
    (console_error C label (Some e) ;;
     logAndProgress C message cb (Some "error") ;;
     @throw _ A e).
Proof.
  unfold console_error.
  apply emits_bind; [apply emits_emit, (proj1 (proj2 Hout)) | intros _].
  apply emits_bind; [apply logAndProgress_output | intros _].
  apply emits_throw.
Qed.

Lemma ensureApi_output projectId api :
  P (GetService (service_name projectId api)) ->
  P (EnableService (service_name projectId api)) ->
  P OperationPromise ->
  emits P (ensureApi C projectId cb api).
Proof.
  intros Hg He Hp. unfold ensureApi, service_name in *.
  apply emits_try_catch.
  - apply emits_bind; [apply emits_call, Hg | intros service].
    destruct (negb _); [|apply emits_ret].
    apply emits_bind; [apply logAndProgress_output | intros _].
    apply emits_bind; [apply emits_call, He | intros operation].
    apply emits_call, Hp.
  - intros e. unfold console_error.
    apply emits_bind; [apply emits_emit, (proj1 (proj2 Hout)) | intros _].
    apply emits_bind; [apply logAndProgress_output | intros _].
    apply emits_throw.
Qed.

Lemma ensureApisEnabled_output projectId apis :
  (forall api, In api apis ->
     P (GetService (service_name projectId api))
     /\ P (EnableService (service_name projectId api))) ->
  P OperationPromise ->
  emits P (ensureApisEnabled C projectId apis cb).
Proof.
  intros Hreq Hp. unfold ensureApisEnabled.
  apply emits_bind; [apply logAndProgress_output | intros _].
  apply emits_bind; [| intros _; apply logAndProgress_output].
  induction apis as [|api apis IH]; simpl; [apply emits_ret|].
  apply emits_bind.
  - destruct (Hreq api (or_introl eq_refl)) as [Hg He].
    apply ensureApi_output; assumption.
  - intros _. apply IH. intros a Ha. apply Hreq. right. exact Ha.
Qed.

Lemma checkGkeClusterExists_output projectId location clusterId :
  (forall n, P (GetCluster n)) ->
  emits P (checkGkeClusterExists C projectId location clusterId cb).
Proof.
  intros Hg. unfold checkGkeClusterExists.
  apply emits_try_catch.
  - apply emits_bind; [apply emits_call, Hg | intros _].
    apply emits_bind; [apply logAndProgress_output | intros _]. apply emits_ret.
  - intros e. destruct (code_is 5 e).
    + apply emits_bind; [apply logAndProgress_output | intros _]. apply emits_ret.
    + apply rethrow_output.
Qed.

Lemma deployToGke_output projectId location clusterId deploymentName imgUrl :
  markers_ok P -> (forall n, P (GetCluster n)) -> (forall c, P (Exec c)) ->
  emits P (deployToGke C projectId location clusterId deploymentName imgUrl cb).
Proof.
  intros [Hi Ht] Hg Hx. unfold deployToGke. apply emits_try_catch.
  - apply emits_bind.
    + apply emits_stage; [apply Hi | apply Ht |].
      apply emits_bind; [apply checkGkeClusterExists_output, Hg | intros b].
      destruct (negb b); [apply emits_throw | apply emits_ret].
    + intros _. apply emits_stage; [apply Hi | apply Ht |]. unfold exec.
      repeat (apply emits_bind;
              [ first [ apply logAndProgress_output | apply emits_call, Hx ]
              | intros ? ]).
      apply emits_ret.
  - intros e. apply rethrow_output.
Qed.

Lemma call_binding_output {A : Type} (s : Stage) (identifier : string)
    (binding : option (Remote C -> Outcome A * Remote C)) :
  P (StageInvoked s) -> (forall e, P (StageThrew s e)) ->
  emits P (call_binding C s identifier binding).
Proof.
  intros Hi Ht. unfold call_binding. destruct binding as [f|].
  - apply emits_stage; [exact Hi | exact Ht | apply emits_lift].
  - apply emits_throw.
Qed.

End Output.

(** What [deploy] does after [ensureApisEnabled] returned. *)
Lemma deploy_events (C : Collaborators) (P : Event -> Prop) (args : DeployArgs)
    (r : Remote C) :
  output_ok P (progressCallback args) -> markers_ok P ->
  (forall n, P (GetCluster n)) -> (forall c, P (Exec c)) ->
  exists l1 l2,
    events (deploy C args r) = (StageInvoked EnableAPIs :: l1 ++ l2)%list
    /\ l1 = events (ensureApisEnabled C (projectId args) REQUIRED_APIS
                      (progressCallback args) r)
    /\ Forall P l2.
Proof.
  intros Hout Hm Hg Hx. unfold deploy.
  match goal with
  | |- context [try_catch (bind (stage EnableAPIs ?m) ?k) ?h] =>
      set (first := m); set (next := k); set (handler := h)
  end.
  assert (Hnext : forall a, emits P (next a)).
  { intros a. subst next. cbv beta.
    repeat (apply emits_bind;
            [ first [ apply call_binding_output; apply Hm
                    | apply emits_eval
                    | apply deployToGke_output; assumption ]
            | intros ? ]).
    apply emits_ret. }
  assert (Hhandler : forall e, emits P (handler e)).
  { intros e. subst handler. cbv beta zeta. apply rethrow_output. exact Hout. }
  unfold try_catch, bind, stage, events.
  destruct (first r) as [[[[]|e] r1] l1] eqn:E; cbn [fst snd].
  - specialize (Hnext tt r1). unfold events in Hnext.
    destruct (next tt r1) as [[[v|e] r2] l2]; cbn [fst snd] in *.
    + exists l1, l2. split; [reflexivity|]. split; [reflexivity | exact Hnext].
    + specialize (Hhandler e r2). unfold events in Hhandler.
      destruct (handler e r2) as [[o r3] l3]. cbn [fst snd] in *.
      exists l1, (l2 ++ l3)%list. split.
      { simpl. rewrite app_assoc. reflexivity. }
      split; [reflexivity|]. apply Forall_app. split; assumption.
  - specialize (Hhandler e r1). unfold events in Hhandler.
    destruct (handler e r1) as [[o r3] l3]. cbn [fst snd] in *.
    exists l1, (StageThrew EnableAPIs e :: l3). split.
    { simpl. rewrite <- app_assoc. reflexivity. }
    split; [reflexivity|]. constructor; [apply Hm | exact Hhandler].
Qed.

(** ** Which APIs a deployment enables *)

Lemma subsequence_nil_l {A : Type} (l : list A) : subsequence [] l.
Proof. induction l; constructor; assumption. Qed.

Lemma subsequence_app {A : Type} (a1 a2 b1 b2 : list A) :
  subsequence a1 b1 -> subsequence a2 b2 -> subsequence (a1 ++ a2) (b1 ++ b2).
Proof.
  intros H1 H2. induction H1; simpl.
  - exact H2.
  - apply subsequence_skip. exact IHsubsequence.
  - apply subsequence_keep. exact IHsubsequence.
Qed.

Lemma not_enabling_requests (l : list Event) :
  Forall not_enabling l -> enabled_requests l = [].
Proof.
  induction 1 as [|ev l H _ IH]; [reflexivity|].
  destruct ev; simpl in *; try exact IH; contradiction.
Qed.

Lemma output_ok_not_enabling cb : output_ok not_enabling cb.
Proof. repeat split; intros; exact I. Qed.

Section EnablesWithin.

Context {S : Type}.

Lemma enables_quiet {A : Type} (names : list string) (m : M S A) :
  emits not_enabling m -> enables_within names m.
Proof.
  intros H s. rewrite (not_enabling_requests _ (H s)). apply subsequence_nil_l.
Qed.

Lemma enables_bind {A B : Type} (n1 n2 : list string) (m : M S A) (k : A -> M S B) :
  enables_within n1 m -> (forall a, enables_within n2 (k a)) ->
  enables_within (n1 ++ n2) (bind m k).
Proof.
  intros Hm Hk s. specialize (Hm s). unfold bind, events in *.
  destruct (m s) as [[[a|e] s1] l1]; cbn [fst snd] in *.
  - specialize (Hk a s1). unfold events in Hk.
    destruct (k a s1) as [[o s2] l2]. cbn [fst snd] in *.
    rewrite enabled_requests_app. apply subsequence_app; assumption.
  - rewrite <- (app_nil_r (enabled_requests l1)).
    apply subsequence_app; [exact Hm | apply subsequence_nil_l].
Qed.

Lemma enables_try_catch {A : Type} (n1 n2 : list string) (m : M S A)
    (h : Error -> M S A) :
  enables_within n1 m -> (forall e, enables_within n2 (h e)) ->
  enables_within (n1 ++ n2) (try_catch m h).
Proof.
  intros Hm Hh s. specialize (Hm s). unfold try_catch, events in *.
  destruct (m s) as [[[a|e] s1] l1]; cbn [fst snd] in *.
  - rewrite <- (app_nil_r (enabled_requests l1)).
    apply subsequence_app; [exact Hm | apply subsequence_nil_l].
  - specialize (Hh e s1). unfold events in Hh.
    destruct (h e s1) as [[o s2] l2]. cbn [fst snd] in *.
    rewrite enabled_requests_app. apply subsequence_app; assumption.
Qed.

Lemma enables_call {A : Type} (name : string) (f : S -> Outcome A * S) :
  enables_within [name] (call (EnableService name) f).
Proof.
  intros s. unfold call, events. destruct (f s). simpl.
  apply subsequence_keep, subsequence_nil.
Qed.

End EnablesWithin.

Section Enabling.

Variable C : Collaborators.

Lemma ensureApi_enables projectId cb api :
  enables_within [service_name projectId api] (ensureApi C projectId cb api).
Proof.
  unfold ensureApi, service_name.
  apply (enables_try_catch [_] []).
  - apply (enables_bind [] [_]).
    + apply enables_quiet, emits_call. exact I.
    + intros service. destruct (negb _).
      * apply (enables_bind [] [_]).
        { apply enables_quiet, logAndProgress_output, output_ok_not_enabling. }
        intros _. apply (enables_bind [_] []); [apply enables_call|].
        intros operation. apply enables_quiet, emits_call. exact I.
      * apply enables_quiet, emits_ret.
  - intros e. apply enables_quiet. unfold console_error.
    apply emits_bind; [apply emits_emit; exact I | intros _].
    apply emits_bind;
      [apply logAndProgress_output, output_ok_not_enabling | intros _].
    apply emits_throw.
Qed.

Lemma ensureApisEnabled_enables projectId apis cb :
  enables_within (map (service_name projectId) apis)
    (ensureApisEnabled C projectId apis cb).
Proof.
  unfold ensureApisEnabled.
  rewrite <- (app_nil_r (map (service_name projectId) apis)).
  apply (enables_bind [] (map (service_name projectId) apis ++ [])).
  { apply enables_quiet, logAndProgress_output, output_ok_not_enabling. }
  intros _. apply enables_bind.
  - induction apis as [|api apis IH]; simpl.
    + apply enables_quiet, emits_ret.
    + apply (enables_bind [_] _); [apply ensureApi_enables | intros _; exact IH].
  - intros _. apply enables_quiet, logAndProgress_output, output_ok_not_enabling.
Qed.

End Enabling.

(** X3. A deployment asks to enable nothing but the five required APIs of
    its project: its [enableService] requests, in the order sent, are the
    resource names of [REQUIRED_APIS] with some left out, so none is
    enabled twice and nothing is enabled after the first stage. The same
    holds for [ensureApisEnabled] and any list it is given. *)
Theorem deploy_enables_only_required
    (C : Collaborators) (args : DeployArgs) (r : Remote C) :
  subsequence (enabled_requests (events (deploy C args r)))
    (map (service_name (projectId args)) REQUIRED_APIS)
  /\ (forall projectId apis cb (r : Remote C),
        subsequence
          (enabled_requests (events (ensureApisEnabled C projectId apis cb r)))
          (map (service_name projectId) apis)).
Proof.
  split; [|intros projectId apis cb r0; apply ensureApisEnabled_enables].
  destruct (deploy_events C not_enabling args r
              (output_ok_not_enabling _)
              (conj (fun _ => I) (fun _ _ => I)) (fun _ => I) (fun _ => I))
    as (l1 & l2 & -> & -> & H2).
  simpl. rewrite enabled_requests_app, (not_enabling_requests l2 H2), app_nil_r.
  apply ensureApisEnabled_enables.
Qed.

(** ** Deployments without a callback *)

Lemma unnotified_delivered (l : list Event) :
  Forall unnotified l -> delivered l = [].
Proof.
  induction 1 as [|ev l H _ IH]; [reflexivity|].
  destruct ev; simpl in *; try exact IH; contradiction.
Qed.

Lemma output_ok_unnotified : output_ok unnotified None.
Proof. repeat split; intros; try exact I. discriminate. Qed.

Lemma deploy_unnotified (C : Collaborators) (args : DeployArgs) :
  progressCallback args = None -> emits unnotified (deploy C args).
Proof.
  intros Hcb r.
  assert (Hout : output_ok unnotified (progressCallback args)).
  { rewrite Hcb. exact output_ok_unnotified. }
  destruct (deploy_events C unnotified args r Hout
              (conj (fun _ => I) (fun _ _ => I)) (fun _ => I) (fun _ => I))
    as (l1 & l2 & -> & -> & H2).
  constructor; [exact I|]. apply Forall_app. split; [|exact H2].
  apply ensureApisEnabled_output; [exact Hout | intros; split; exact I | exact I].
Qed.

(** X4. A deployment started without a progress callback delivers no
    notification at all: what it reports goes to the console only. *)
Theorem deploy_without_callback_is_silent
    (C : Collaborators) (args : DeployArgs) (r : Remote C) :
  progressCallback args = None ->
  delivered (events (deploy C args r)) = [].
Proof.
  intros Hcb. apply unnotified_delivered. apply deploy_unnotified. exact Hcb.
Qed.

Lemma deploy_without_callback_is_silent_witness :
  delivered
    (events (deploy (fake scenario_A)
               {| projectId := "p"; serviceName := None; region := None;
                  clusterId := None; files := [FilePath "/app/Dockerfile"];
                  progressCallback := None |} []))
  = [].
Proof.
  apply (deploy_without_callback_is_silent (fake scenario_A)). reflexivity.
Defined.

(** ** When enabling an API fails *)



Section ApiFailure.

Variable C : Collaborators.

Lemma report_then_throw_outcome {A : Type} label detail message cb severity
    (x : Error) (r : Remote C) :
  outcome ((console_error C label detail ;;
            logAndProgress C message cb severity ;;
            @throw _ A x) r) = Thrown x.
Proof.
  destruct (logAndProgress_run C message cb severity r) as (Ho & _).
  unfold bind, console_error, emit, throw, outcome in *. cbn [fst snd].
  destruct (logAndProgress C message cb severity r) as [[o s] l].
  cbn [fst snd] in *. subst o. reflexivity.
Qed.



End ApiFailure.



(** ** Error output *)

Section Tidy.

Context {S : Type}.

Lemma tidy_emits {A : Type} (m : M S A) : emits no_error_output m -> tidy m.
Proof. intros H s a _. apply H. Qed.

Lemma tidy_bind {A B : Type} (m : M S A) (k : A -> M S B) :
  tidy m -> (forall a, tidy (k a)) -> tidy (bind m k).
Proof.
  intros Hm Hk s b. specialize (Hm s). unfold bind, outcome, events in *.
  destruct (m s) as [[[a|e] s1] l1]; cbn [fst snd] in *; [|discriminate].
  specialize (Hk a s1 b). unfold outcome, events in Hk.
  destruct (k a s1) as [[o s2] l2]. cbn [fst snd] in *.
  intros Ho. apply Forall_app. split; [apply (Hm a); reflexivity | apply Hk, Ho].
Qed.

Lemma tidy_stage {A : Type} (st : Stage) (m : M S A) : tidy m -> tidy (stage st m).
Proof.
  intros Hm s a. specialize (Hm s a). unfold stage, outcome, events in *.
  destruct (m s) as [[[a'|e] s1] l1]; cbn [fst snd] in *; [|discriminate].
  intros Ho. constructor; [exact I | exact (Hm Ho)].
Qed.

(** A handler that always throws. *)
Lemma tidy_try_throws {A : Type} (m : M S A) (h : Error -> M S A) :
  tidy m -> (forall e s, exists x, outcome (h e s) = Thrown x) ->
  tidy (try_catch m h).
Proof.
  intros Hm Hh s a. specialize (Hm s a). unfold try_catch, outcome, events in *.
  destruct (m s) as [[[a'|e] s1] l1]; cbn [fst snd] in *; [exact Hm|].
  destruct (Hh e s1) as (x & Hx). unfold outcome in Hx.
  destruct (h e s1) as [[o s2] l2]. cbn [fst snd] in *. subst o. discriminate.
Qed.

(** A body that puts out no error, whatever its outcome. *)
Lemma tidy_try_catch {A : Type} (m : M S A) (h : Error -> M S A) :
  emits no_error_output m -> (forall e, tidy (h e)) -> tidy (try_catch m h).
Proof.
  intros Hm Hh s a. specialize (Hm s). unfold try_catch, outcome, events in *.
  destruct (m s) as [[[a'|e] s1] l1]; cbn [fst snd] in *; [intros _; exact Hm|].
  specialize (Hh e s1 a). unfold outcome, events in Hh.
  destruct (h e s1) as [[o s2] l2]. cbn [fst snd] in *.
  intros Ho. apply Forall_app. split; [exact Hm | exact (Hh Ho)].
Qed.

Lemma tidy_throw {A : Type} (e : Error) : tidy (@throw S A e).
Proof. intros s a H. discriminate H. Qed.

End Tidy.

Section TidyDeploy.

Variable C : Collaborators.

Lemma logAndProgress_info_quiet message cb :
  emits no_error_output (logAndProgress C message cb None).
Proof.
  intros r. unfold logAndProgress, bind, console_log, emit, ret, events. simpl.
  destruct cb; repeat constructor. simpl. discriminate.
Qed.

Lemma report_then_throw_tidy {A : Type} label detail message cb severity (x : Error) :
  tidy (console_error C label detail ;;
        logAndProgress C message cb severity ;;
        @throw _ A x).
Proof.
  intros r a H. rewrite report_then_throw_outcome in H. discriminate H.
Qed.

Lemma ensureApisEnabled_tidy projectId apis cb :
  tidy (ensureApisEnabled C projectId apis cb).
Proof.
  unfold ensureApisEnabled.
  apply tidy_bind; [apply tidy_emits, logAndProgress_info_quiet | intros _].
  apply tidy_bind; [|intros _; apply tidy_emits, logAndProgress_info_quiet].
  induction apis as [|api apis IH]; simpl.
  - apply tidy_emits, emits_ret.
  - apply tidy_bind; [|intros _; exact IH]. unfold ensureApi.
    apply tidy_try_throws.
    + apply tidy_emits.
      apply emits_bind; [apply emits_call; exact I | intros service].
      destruct (negb _); [|apply emits_ret].
      apply emits_bind; [apply logAndProgress_info_quiet | intros _].
      apply emits_bind; [apply emits_call; exact I | intros operation].
      apply emits_call. exact I.
    + intros e s. eexists. apply report_then_throw_outcome.
Qed.

Lemma checkGkeClusterExists_tidy projectId location clusterId cb :
  tidy (checkGkeClusterExists C projectId location clusterId cb).
Proof.
  unfold checkGkeClusterExists. apply tidy_try_catch.
  - apply emits_bind; [apply emits_call; exact I | intros _].
    apply emits_bind; [apply logAndProgress_info_quiet | intros _]. apply emits_ret.
  - intros e. destruct (code_is 5 e).
    + apply tidy_emits.
      apply emits_bind; [apply logAndProgress_info_quiet | intros _]. apply emits_ret.
    + apply report_then_throw_tidy.
Qed.

Lemma deployToGke_tidy projectId location clusterId deploymentName imgUrl cb :
  tidy (deployToGke C projectId location clusterId deploymentName imgUrl cb).
Proof.
  unfold deployToGke. apply tidy_try_throws.
  - apply tidy_bind.
    + apply tidy_stage. apply tidy_bind; [apply checkGkeClusterExists_tidy|].
      intros b. destruct (negb b); [apply tidy_throw | apply tidy_emits, emits_ret].
    + intros _. apply tidy_stage, tidy_emits. unfold exec.
      repeat (apply emits_bind;
              [ first [ apply logAndProgress_info_quiet | apply emits_call; exact I ]
              | intros ? ]).
      apply emits_ret.
  - intros e s. eexists. apply report_then_throw_outcome.
Qed.

Lemma call_binding_tidy {A : Type} (s : Stage) (identifier : string)
    (binding : option (Remote C -> Outcome A * Remote C)) :
  tidy (call_binding C s identifier binding).
Proof.
  unfold call_binding. destruct binding as [f|].
  - apply tidy_stage, tidy_emits, emits_lift.
  - apply tidy_throw.
Qed.

Lemma deploy_tidy (args : DeployArgs) : tidy (deploy C args).
Proof.
  unfold deploy. apply tidy_try_throws.
  - apply tidy_bind; [apply tidy_stage, ensureApisEnabled_tidy | intros _].
    repeat (apply tidy_bind;
            [ first [ apply call_binding_tidy
                    | apply tidy_emits, emits_eval
                    | apply deployToGke_tidy ]
            | intros ? ]).
    apply tidy_emits, emits_ret.
  - intros e s. eexists. apply report_then_throw_outcome.
Qed.

Lemma deploy_failure_report (args : DeployArgs) (r : Remote C) (e : Error) :
  outcome (deploy C args r) = Thrown e ->
  exists l, events (deploy C args r) = (l ++ failure_report (progressCallback args) e)%list.
Proof.
  unfold deploy.
  match goal with
  | |- context [try_catch ?m ?h] => set (body := m)
  end.
  unfold try_catch, outcome, events.
  destruct (body r) as [[[v|e0] r1] l1]; cbn [fst snd]; [discriminate|].
  unfold failure_report, bind, console_error, emit, throw, logAndProgress,
    console_log.
  simpl. destruct (progressCallback args); simpl; intros H; injection H as <-;
    exists l1; reflexivity.
Qed.

End TidyDeploy.

(** X6. The error output of a deployment tells how it ended. A deployment
    that returns has printed nothing on the error console and delivered no
    notification of level ['error']. A deployment that throws [e] ends
    with the report of its [catch] block: the error itself and the line
    "Deployment failed: " with the message of [e] on the error console,
    then, when there is a callback, that line as a notification of level
    ['error']. *)
Theorem deploy_error_output
    (C : Collaborators) (args : DeployArgs) (r : Remote C) :
  let run := deploy C args r in
  (forall v, outcome run = Returned v -> Forall no_error_output (events run))
  /\ (forall e, outcome run = Thrown e ->
        exists l,
          events run = (l ++ failure_report (progressCallback args) e)%list).
Proof.
  split.
  - intros v. apply deploy_tidy.
  - intros e. apply deploy_failure_report.
Qed.

Lemma deploy_error_output_witness :
  exists l,
    events (deploy (fake no_cluster) (request [FilePath "/app/Dockerfile"]) [])
    = (l ++ failure_report (Some (Subscriber 0))
              (new_Error "GKE cluster default-cluster does not exist. Please create it first."))%list.
Proof.
  apply (proj2 (deploy_error_output (fake no_cluster)
                  (request [FilePath "/app/Dockerfile"]) [])).
  reflexivity.
Defined.

(** ** The image a deployment runs *)

Section ReturnsCommands.

Context {S : Type}.

Lemma commandless_commands (l : list Event) : Forall commandless l -> commands l = [].
Proof.
  induction 1 as [|ev l H _ IH]; [reflexivity|].
  destruct ev; simpl in *; try exact IH; contradiction.
Qed.

Lemma returns_commands_bind {A B : Type} (P : list string -> Prop) (Q : A -> Prop)
    (m : M S A) (k : A -> M S B) :
  emits commandless m ->
  (forall s a, outcome (m s) = Returned a -> Q a) ->
  (forall a, Q a -> returns_commands P (k a)) ->
  returns_commands P (bind m k).
Proof.
  intros Hm HQ Hk s b. specialize (Hm s). specialize (HQ s).
  unfold bind, outcome, events in *.
  destruct (m s) as [[[a|e] s1] l1]; cbn [fst snd] in *; [|discriminate].
  specialize (Hk a (HQ a eq_refl) s1 b). unfold outcome, events in Hk.
  destruct (k a s1) as [[o s2] l2]. cbn [fst snd] in *.
  intros Ho. rewrite commands_app, (commandless_commands l1 Hm). exact (Hk Ho).
Qed.

Lemma returns_commands_ret {A : Type} (P : list string -> Prop) (m : M S A) :
  returns_commands P m -> returns_commands P (bind m (fun a => ret a)).
Proof.
  intros Hm s a. specialize (Hm s). unfold bind, ret, outcome, events in *.
  destruct (m s) as [[[a'|e] s1] l1]; cbn [fst snd] in *; [|discriminate].
  intros _. rewrite app_nil_r. apply (Hm a'). reflexivity.
Qed.

Lemma returns_commands_try {A : Type} (P : list string -> Prop) (m : M S A)
    (h : Error -> M S A) :
  returns_commands P m ->
  (forall e s, exists x, outcome (h e s) = Thrown x) ->
  returns_commands P (try_catch m h).
Proof.
  intros Hm Hh s a. specialize (Hm s a). unfold try_catch, outcome, events in *.
  destruct (m s) as [[[a'|e] s1] l1]; cbn [fst snd] in *; [exact Hm|].
  destruct (Hh e s1) as (x & Hx). unfold outcome in Hx.
  destruct (h e s1) as [[o s2] l2]. cbn [fst snd] in *. subst o. discriminate.
Qed.

End ReturnsCommands.

Lemma output_ok_commandless cb : output_ok commandless cb.
Proof. repeat split; intros; exact I. Qed.

Lemma call_binding_answer (C : Collaborators) {A : Type} (s : Stage)
    (identifier : string) (binding : option (Remote C -> Outcome A * Remote C))
    (r : Remote C) (a : A) :
  outcome (call_binding C s identifier binding r) = Returned a ->
  exists f, binding = Some f /\ fst (f r) = Returned a.
Proof.
  unfold call_binding. destruct binding as [f|]; [|discriminate].
  unfold stage, lift, outcome. intros H. exists f. split; [reflexivity|].
  destruct (f r) as [[a'|e] r1]; cbn [fst snd] in *; [exact H | discriminate H].
Qed.

(** X7. A deployment that returns has run exactly the four command lines,
    for its project, its region (['europe-west1'] by default), its cluster
    (['default-cluster'] by default) and its service (['app'] by default),
    and the image of the manifest it applied is
    [<repository>/<service>:latest], where the repository is what
    [ensureArtifactRegistryRepoExists] returned for the Docker repository
    [<service>-repo]. *)
Theorem deploy_runs_built_image
    (C : Collaborators) (args : DeployArgs) (r : Remote C) (v : Value) :
  outcome (deploy C args r) = Returned v ->
  exists repo,
    registry_answer C args repo
    /\ commands (events (deploy C args r))
       = command_lines (projectId args)
           (or_default "europe-west1" (region args))
           (or_default "default-cluster" (clusterId args))
           (or_default "app" (serviceName args))
           (repo ++ "/" ++ or_default "app" (serviceName args) ++ ":latest").
Proof.
  revert r v.
  change (returns_commands
            (fun cs =>
               exists repo,
                 registry_answer C args repo
                 /\ cs = command_lines (projectId args)
                           (or_default "europe-west1" (region args))
                           (or_default "default-cluster" (clusterId args))
                           (or_default "app" (serviceName args))
                           (repo ++ "/" ++ or_default "app" (serviceName args)
                              ++ ":latest"))
            (deploy C args)).
  unfold deploy. apply returns_commands_try.
  2:{ intros e s. eexists. apply report_then_throw_outcome. }
  apply (returns_commands_bind _ (fun _ => True)).
  { apply emits_stage; [exact I | intros; exact I |].
    apply ensureApisEnabled_output;
      [apply output_ok_commandless | intros; split; exact I | exact I]. }
  { intros; exact I. }
  intros _ _.
  do 3 (apply (returns_commands_bind _ (fun _ => True));
        [ apply call_binding_output; [exact I | intros; exact I]
        | intros; exact I
        | intros ? _ ]).
  apply (returns_commands_bind _ (registry_answer C args)).
  { apply call_binding_output; [exact I | intros; exact I]. }
  { intros s repo H. apply call_binding_answer in H. destruct H as (f & Hf & Hr).
    destruct (ensureArtifactRegistryRepoExists C) as [g|] eqn:E; [|discriminate Hf].
    simpl in Hf. injection Hf as <-. exists g, s. split; [exact E | exact Hr]. }
  intros repo Hrepo.
  apply (returns_commands_bind _ (fun _ => True));
    [apply emits_eval | intros; exact I | intros dockerfile _].
  apply (returns_commands_bind _ (fun _ => True));
    [ apply call_binding_output; [exact I | intros; exact I]
    | intros; exact I | intros _ _ ].
  apply returns_commands_ret. intros s v Hv. exists repo. split; [exact Hrepo|].
  exact (proj1 (proj2 (deployToGke_commands C _ _ _ _ _ _ s) v Hv)).
Qed.

Lemma deploy_runs_built_image_witness :
  exists repo,
    registry_answer (fake scenario_A) (request [FilePath "/app/Dockerfile"]) repo
    /\ commands (events (deploy (fake scenario_A)
                           (request [FilePath "/app/Dockerfile"]) all_enabled))
       = command_lines "p" "europe-west1" "default-cluster" "app"
           (repo ++ "/app:latest").
Proof.
  apply (deploy_runs_built_image (fake scenario_A)
           (request [FilePath "/app/Dockerfile"]) all_enabled
           (Obj [("name", Str "app"); ("url", Str "http://198.51.100.7")])).
  vm_compute. reflexivity.
Defined.

(** ** Creating a cluster *)







(** ** The handlers that read *)

(** X10. The handler of [get_cluster] never throws and sends one request,
    the read of the cluster. It answers with the details of the cluster
    when the read succeeds, with "Cluster ... not found ..." when the read
    is answered with NOT_FOUND, and with "Error getting cluster ...: "
    followed by the message of the error otherwise. *)
Theorem get_cluster_reports
    (C : Collaborators) (A : GkeClustersAdmin.ClusterAdmin C)
    (project region cluster : string) (r : Remote C) :
  let run := ToolHandlers.get_cluster C A project region cluster r in
  outcome run
  = Returned
      (Tools.text_response
         match fst (client_getCluster C (clusterPath C project region cluster) r) with
         | Returned details =>
             "Name: " ++ cluster ++ nl ++ "Region: " ++ region ++ nl
               ++ "Project: " ++ project ++ nl
               ++ "Status: " ++ GkeClustersAdmin.cluster_status C A details ++ nl
               ++ "Node Count: "
               ++ GkeClustersAdmin.cluster_currentNodeCount C A details ++ nl
               ++ "Version: "
               ++ GkeClustersAdmin.cluster_currentMasterVersion C A details
         | Thrown e =>
             if code_is 5 e
             then "Cluster " ++ cluster ++ " not found in project " ++ project
                    ++ " (region " ++ region ++ ")."
             else "Error getting cluster " ++ cluster ++ " in project " ++ project
                    ++ " (region " ++ region ++ "): " ++ message_text e
         end)
  /\ requests (events run) = [GetCluster (clusterPath C project region cluster)]
  /\ final run = snd (client_getCluster C (clusterPath C project region cluster) r).
Proof.
  cbv beta zeta delta [ToolHandlers.get_cluster GkeClusters.getCluster try_catch
                         bind call outcome final events emit throw ret].
  destruct (client_getCluster C _ r) as [[details|e] r1]; cbn -[append].
  - repeat split; reflexivity.
  - destruct (code_is 5 e); cbn -[append]; repeat split; reflexivity.
Qed.

(** X11. The handler of [list_clusters] never throws: it answers with the
    list, one line per cluster in the order received, or with "Error
    listing clusters ...: " followed by the message of the error. The name
    on a line is what follows the last slash of the name of the cluster,
    so it contains no slash, and for a name that ends in [/<id>], such as
    the resource name [projects/<p>/locations/<l>/clusters/<id>], it is
    [<id>]. *)
Theorem list_clusters_shows_ids
    (C : Collaborators) (A : GkeClustersAdmin.ClusterAdmin C)
    (project region : string) (r : Remote C) :
  outcome (ToolHandlers.list_clusters C A project region r)
  = Returned
      (Tools.text_response
         match fst (GkeClustersAdmin.client_listClusters C A
                      (locationPath C project region) r) with
         | Returned clusters =>
             "Clusters in project " ++ project ++ " (location " ++ region ++ "):"
               ++ nl ++ String.concat nl (map (ToolHandlers.cluster_line C A) clusters)
         | Thrown e =>
             "Error listing clusters for project " ++ project ++ " (region "
               ++ region ++ "): " ++ message_text e
         end)
  /\ (forall c, exists shown,
        ToolHandlers.cluster_line C A c
        = "- " ++ shown ++ " (Status: " ++ GkeClustersAdmin.cluster_status C A c ++ ")"
        /\ free_of "/" shown)
  /\ (forall c before id,
        GkeClustersAdmin.cluster_name C A c = before ++ "/" ++ id ->
        free_of "/" id ->
        ToolHandlers.cluster_line C A c
        = "- " ++ id ++ " (Status: " ++ GkeClustersAdmin.cluster_status C A c ++ ")").
Proof.
  split; [|split].
  - cbv beta zeta delta [ToolHandlers.list_clusters GkeClustersAdmin.listClusters
                           try_catch bind lift outcome emit throw ret].
    destruct (GkeClustersAdmin.client_listClusters C A _ r) as [[clusters|e] r1];
      reflexivity.
  - intros c. eexists. split; [reflexivity|].
    pose proof (split_segments_free "/" (GkeClustersAdmin.cluster_name C A c)) as Hall.
    rewrite Forall_forall in Hall. apply Hall. apply pop_text_In.
    destruct (split_cons "/" (GkeClustersAdmin.cluster_name C A c))
      as (seg & segs & ->). discriminate.
  - intros c before id Hname Hfree. unfold ToolHandlers.cluster_line. rewrite Hname.
    change ("/" ++ id) with (String "/" id).
    rewrite pop_split_after, (split_free "/" id Hfree). reflexivity.
Qed.

Lemma list_clusters_shows_ids_witness :
  ToolHandlers.cluster_line (fake scenario_A) (fake_admin scenario_A)
    "projects/p/locations/europe-west1/clusters/default-cluster"
  = "- default-cluster (Status: RUNNING)".
Proof.
  refine (proj2 (proj2 (list_clusters_shows_ids (fake scenario_A)
                          (fake_admin scenario_A) "p" "europe-west1" []))
            _ "projects/p/locations/europe-west1/clusters" "default-cluster"
            eq_refl _).
  vm_compute. repeat split; discriminate.
Defined.

(** ** The handlers that deploy *)

Lemma output_ok_before_build cb : output_ok before_build cb.
Proof. repeat split; intros; exact I. Qed.

Section FailsWithin.

Context {S : Type} (P : Event -> Prop).

Lemma fails_bind_quiet {A B : Type} (m : M S A) (k : A -> M S B) (s : S) :
  emits P m -> (forall a s1, fails_within P (k a s1)) ->
  fails_within P (bind m k s).
Proof.
  intros Hm Hk. specialize (Hm s). unfold fails_within, bind, outcome, events in *.
  destruct (m s) as [[[a|e] s1] l1]; cbn [fst snd] in *.
  - specialize (Hk a s1). destruct (k a s1) as [[o s2] l2]. cbn [fst snd] in *.
    destruct Hk as [He Hl]. split; [exact He|]. apply Forall_app. split; assumption.
  - split; [eexists; reflexivity | exact Hm].
Qed.

Lemma fails_here {A B : Type} (e : Error) (k : A -> M S B) (s : S) :
  fails_within P (bind (eval (Thrown e)) k s).
Proof. split; [eexists; reflexivity | constructor]. Qed.

Lemma fails_rethrow {A : Type} (m : M S A) (h : Error -> M S A) (s : S) :
  fails_within P (m s) ->
  (forall e, emits P (h e)) ->
  (forall e s1, exists x, outcome (h e s1) = Thrown x) ->
  fails_within P (try_catch m h s).
Proof.
  intros [(e & He) Hl] Hh Hx. unfold fails_within, try_catch, outcome, events in *.
  destruct (m s) as [[[a|e0] s1] l1]; cbn [fst snd] in *; [discriminate He|].
  specialize (Hh e0 s1). destruct (Hx e0 s1) as (x & Ho). unfold outcome, events in *.
  destruct (h e0 s1) as [[o s2] l2]. cbn [fst snd] in *.
  split; [exists x; exact Ho | apply Forall_app; split; assumption].
Qed.

End FailsWithin.

Lemma before_build_facts (l : list Event) :
  Forall before_build l ->
  commands l = [] /\ ~ In (StageInvoked TriggerBuild) l.
Proof.
  intros H. split.
  - induction H as [|ev l Hev _ IH]; [reflexivity|].
    destruct ev; simpl in *; try exact IH; contradiction.
  - intros Hin. rewrite Forall_forall in H. exact (H _ Hin).
Qed.

(** A deployment whose first file has inline content stops before the
    build. *)
Lemma deploy_inline_fails (C : Collaborators) (args : DeployArgs) (r : Remote C)
    (name text : string) (rest : list FileEntry) :
  files args = FileContent name text :: rest ->
  fails_within before_build (deploy C args r).
Proof.
  intros Hfiles. unfold deploy. rewrite Hfiles. apply fails_rethrow.
  - apply fails_bind_quiet.
    { apply emits_stage; [exact I | intros; exact I |].
      apply ensureApisEnabled_output;
        [apply output_ok_before_build | intros; split; exact I | exact I]. }
    intros _ r1.
    do 4 (apply fails_bind_quiet;
          [ apply call_binding_output; [exact I | intros; exact I] | intros ? ? ]).
    apply fails_here.
  - intros e. apply rethrow_output, output_ok_before_build.
  - intros e s1. eexists. apply report_then_throw_outcome.
Qed.

Lemma deploy_returns_result (C : Collaborators) (args : DeployArgs) :
  returns (deployment_result (or_default "app" (serviceName args))) (deploy C args).
Proof.
  unfold deploy. apply returns_try_catch.
  - do 7 (apply returns_bind; intro).
    apply returns_bind_ret. intros s v Hv.
    exact (proj2 (proj2 (deployToGke_commands C _ _ _ _ _ _ s) v Hv)).
  - intro e. repeat (apply returns_bind; intro). apply returns_throw.
Qed.

Lemma deploy_and_report_reported (C : Collaborators)
    (opening project region cluster service : string) (files : list FileEntry)
    (r : Remote C) :
  reported opening project
    (deploy C (handler_args project region cluster service files) r)
    (ToolHandlers.deploy_and_report C opening project region cluster service files r).
Proof.
  pose proof (deploy_returns_result C
                (handler_args project region cluster service files) r) as Hres.
  unfold reported, ToolHandlers.deploy_and_report, handler_args in *.
  unfold try_catch, bind, ret, outcome, final, events in *.
  destruct (deploy C _ r) as [[[v|e] r1] l]; cbn [fst snd] in *.
  - split; [apply app_nil_r|]. split; [reflexivity|].
    destruct (Hres v eq_refl) as (address & ->). exists address. reflexivity.
  - split; [apply app_nil_r|]. split; reflexivity.
Qed.


(** X13. The handler of [deploy_file_contents] never reports a success.
    It throws when the list is empty or a file has no content. Otherwise
    every entry it passes to [deploy] is an object, so [deploy] throws, at
    the latest at the test for a Dockerfile, and the handler answers with
    "Error deploying to GKE: " and the message of that error. No build is
    triggered, no cluster is read, no command is run and no notification
    is delivered. *)
Theorem deploy_file_contents_never_succeeds
    (C : Collaborators) (currentProject region cluster service : string)
    (files : list ToolHandlers.InlineFile) (r : Remote C) :
  let run :=
    ToolHandlers.deploy_file_contents C currentProject region cluster service files r in
  match files with
  | [] => outcome run = Thrown (new_Error "Files must be specified")
  | _ =>
      match find (fun file => String.eqb (ToolHandlers.content file) empty) files with
      | Some file =>
          outcome run
          = Thrown (new_Error ("File " ++ ToolHandlers.filename file
                                 ++ " must have content"))
      | None =>
          exists e,
            outcome (deploy C (handler_args currentProject region cluster service
                                 (map ToolHandlers.inline_entry files)) r)
            = Thrown e
            /\ outcome run
               = Returned (Tools.text_response
                             ("Error deploying to GKE: " ++ message_or_error e))
      end
  end
  /\ commands (events run) = []
  /\ ~ In (StageInvoked TriggerBuild) (events run)
  /\ (forall n, ~ In (GetCluster n) (events run))
  /\ delivered (events run) = [].
Proof.
  intros run.
  assert (Hinner :
            forall inner : M (Remote C) Value,
              outcome ((emit (ConsoleLog
                               ("New deploy request (remote): "
                                  ++ stringify (ToolHandlers.request_value currentProject
                                                  region cluster service files))) ;;
                        inner) r) = outcome (inner r)
              /\ exists line,
                   events ((emit (ConsoleLog
                                    ("New deploy request (remote): "
                                       ++ stringify (ToolHandlers.request_value
                                                       currentProject region cluster
                                                       service files))) ;;
                            inner) r) = ConsoleLog line :: events (inner r)).
  { intros inner. unfold bind, emit, outcome, events. cbn [fst snd].
    destruct (inner r) as [[o s] l]. cbn [fst snd]. split; [reflexivity|].
    eexists. reflexivity. }
  assert (Hfacts :
            forall l line,
              Forall before_build l -> delivered l = [] ->
              commands (ConsoleLog line :: l) = []
              /\ ~ In (StageInvoked TriggerBuild) (ConsoleLog line :: l)
              /\ (forall n, ~ In (GetCluster n) (ConsoleLog line :: l))
              /\ delivered (ConsoleLog line :: l) = []).
  { intros l line Hl Hd. destruct (before_build_facts l Hl) as [Hc Ht].
    split; [exact Hc|]. split.
    - intros [H|H]; [discriminate H | exact (Ht H)].
    - split; [|exact Hd]. intros n [H|H]; [discriminate H|].
      rewrite Forall_forall in Hl. exact (Hl _ H). }
  subst run. unfold ToolHandlers.deploy_file_contents.
  match goal with
  | |- context [bind (emit _) (fun _ => ?m)] => destruct (Hinner m) as (Ho & line & Hev)
  end.
  rewrite Ho, Hev. clear Ho Hev Hinner.
  destruct files as [|file files].
  - cbn [List.length Nat.eqb]. split; [reflexivity|].
    apply Hfacts; [constructor | reflexivity].
  - cbn [List.length Nat.eqb].
    destruct (find _ (file :: files)) as [bad|].
    + split; [reflexivity|]. apply Hfacts; [constructor | reflexivity].
    + pose proof (deploy_and_report_reported C ("GKE service " ++ service ++ " deployed")
                    currentProject region cluster service
                    (map ToolHandlers.inline_entry (file :: files)) r)
        as (Hev & _ & Hout).
      pose proof (deploy_inline_fails C
                    (handler_args currentProject region cluster service
                       (map ToolHandlers.inline_entry (file :: files))) r
                    _ _ _ eq_refl) as ((e & He) & Hl).
      rewrite He in Hout. split.
      * exists e. split; [exact He | exact Hout].
      * rewrite Hev. apply Hfacts; [exact Hl|].
        apply unnotified_delivered, deploy_unnotified. reflexivity.
Qed.

Lemma deploy_file_contents_never_succeeds_witness :
  outcome (ToolHandlers.deploy_file_contents (fake scenario_A) "p" "europe-west1"
             "default-cluster" "app"
             [{| ToolHandlers.filename := "Dockerfile";
                 ToolHandlers.content := "FROM node" |}]
             all_enabled)
  = Returned (Tools.text_response
                "Error deploying to GKE: file.toLowerCase is not a function").
Proof.
  destruct (deploy_file_contents_never_succeeds (fake scenario_A) "p" "europe-west1"
              "default-cluster" "app"
              [{| ToolHandlers.filename := "Dockerfile";
                  ToolHandlers.content := "FROM node" |}]
              all_enabled) as ((e & He & Hrun) & _).
  rewrite Hrun. vm_compute in He. injection He as <-. reflexivity.
Defined.

(** ** Failures of the last two stages *)

Lemma no_late_failure_In (l : list Event) (e : Error) :
  Forall no_late_failure l ->
  ~ (In (StageThrew EnsureCluster e) l \/ In (StageThrew ApplyManifests e) l).
Proof.
  intros H [Hin|Hin]; rewrite Forall_forall in H; exact (H _ Hin).
Qed.

Lemma output_ok_no_late_failure cb : output_ok no_late_failure cb.
Proof. repeat split; intros; exact I. Qed.

Section LateFailure.

Context {S : Type} (cb : option Callback).

Lemma late_bind_quiet {A B : Type} (m : M S A) (k : A -> M S B) (s : S) :
  emits no_late_failure m -> (forall a s1, late_failure_reported cb (k a s1)) ->
  late_failure_reported cb (bind m k s).
Proof.
  intros Hm Hk e. specialize (Hm s). unfold bind, outcome, events in *.
  destruct (m s) as [[[a|e0] s1] l1]; cbn [fst snd] in *.
  - specialize (Hk a s1 e). unfold outcome, events in Hk.
    destruct (k a s1) as [[o s2] l2]. cbn [fst snd] in *.
    intros Hin.
    assert (Hin2 : In (StageThrew EnsureCluster e) l2
                   \/ In (StageThrew ApplyManifests e) l2).
    { destruct Hin as [Hin|Hin]; apply in_app_or in Hin;
        destruct Hin as [Hin|Hin]; auto;
        destruct (no_late_failure_In l1 e Hm); auto. }
    destruct (Hk Hin2) as (Ho & l & Hl). split; [exact Ho|].
    exists (l1 ++ l)%list. rewrite Hl. apply app_assoc.
  - intros Hin. destruct (no_late_failure_In l1 e Hm Hin).
Qed.

Lemma late_bind_ret {A : Type} (m : M S A) (s : S) :
  late_failure_reported cb (m s) ->
  late_failure_reported cb (bind m (fun a => ret a) s).
Proof.
  intros Hm e. specialize (Hm e). unfold bind, ret, outcome, events in *.
  destruct (m s) as [[[a|e0] s1] l1]; cbn [fst snd] in *.
  - rewrite app_nil_r. intros Hin. destruct (Hm Hin) as (Ho & _). discriminate Ho.
  - exact Hm.
Qed.

End LateFailure.

Section LateFailureDeploy.

Variable C : Collaborators.

Lemma deployToGke_late projectId location clusterId deploymentName imgUrl cb
    (r : Remote C) :
  late_failure_reported cb
    (deployToGke C projectId location clusterId deploymentName imgUrl cb r).
Proof.
  intros e Hin.
  pose proof (deployToGke_ordered C projectId location clusterId deploymentName
                imgUrl cb r) as Hord.
  assert (Ho : outcome (deployToGke C projectId location clusterId deploymentName
                          imgUrl cb r) = Thrown e).
  { unfold ordered in Hord.
    assert (Hm : exists s, In (StageThrew s e)
                             (markers (events (deployToGke C projectId location
                                                 clusterId deploymentName imgUrl cb r)))).
    { destruct Hin as [Hin|Hin]; eexists; apply In_markers; try exact Hin;
        reflexivity. }
    destruct Hm as (s & Hm).
    destruct (outcome (deployToGke C projectId location clusterId deploymentName
                         imgUrl cb r)) as [v|e'].
    - rewrite Hord in Hm. apply in_map_iff in Hm.
      destruct Hm as (x & Hx & _). discriminate Hx.
    - destruct Hord as (done & rest & _ & [Hd | (before & st & _ & Hd)]);
        rewrite Hd in Hm.
      + apply in_map_iff in Hm. destruct Hm as (x & Hx & _). discriminate Hx.
      + apply in_app_or in Hm. destruct Hm as [Hm|[Hm|[]]].
        * apply in_map_iff in Hm. destruct Hm as (x & Hx & _). discriminate Hx.
        * injection Hm as _ <-. reflexivity. }
  split; [exact Ho|]. revert Ho. clear Hin Hord. unfold deployToGke.
  match goal with
  | |- context [try_catch ?m ?h] => set (body := m)
  end.
  unfold try_catch, outcome, events.
  destruct (body r) as [[[v|e0] r1] l1]; cbn [fst snd]; [discriminate|].
  unfold gke_report, bind, console_error, emit, throw, logAndProgress, console_log.
  simpl. destruct cb; simpl; intros H; injection H as <-; exists l1; reflexivity.
Qed.

Lemma deploy_body_late (args : DeployArgs) (r : Remote C) (e : Error) :
  In (StageThrew EnsureCluster e) (events (deploy C args r))
  \/ In (StageThrew ApplyManifests e) (events (deploy C args r)) ->
  outcome (deploy C args r) = Thrown e
  /\ exists l,
       events (deploy C args r)
       = (l ++ gke_report (progressCallback args) e
            ++ failure_report (progressCallback args) e)%list.
Proof.
  unfold deploy.
  match goal with
  | |- context [try_catch ?m ?h] => set (body := m)
  end.
  assert (Hbody : late_failure_reported (progressCallback args) (body r)).
  { subst body. apply late_bind_quiet.
    { apply emits_stage; [exact I | intros; exact I |].
      apply ensureApisEnabled_output;
        [apply output_ok_no_late_failure | intros; split; exact I | exact I]. }
    intros _ r1.
    do 4 (apply late_bind_quiet;
          [ apply call_binding_output; [exact I | intros; exact I] | intros ? ? ]).
    apply late_bind_quiet; [apply emits_eval | intros ? ?].
    apply late_bind_quiet;
      [ apply call_binding_output; [exact I | intros; exact I] | intros ? ? ].
    apply late_bind_ret, deployToGke_late. }
  specialize (Hbody e). unfold try_catch, outcome, events in *.
  destruct (body r) as [[[v|e0] r1] l1]; cbn [fst snd] in *.
  - intros Hin. destruct (Hbody Hin) as (Ho & _). discriminate Ho.
  - unfold failure_report, bind, console_error, emit, throw, logAndProgress,
      console_log.
    simpl. destruct (progressCallback args) as [c|]; simpl; intros Hin.
    + assert (Hin1 : In (StageThrew EnsureCluster e) l1
                     \/ In (StageThrew ApplyManifests e) l1).
      { destruct Hin as [Hin|Hin]; apply in_app_or in Hin;
          destruct Hin as [Hin|Hin]; auto;
          simpl in Hin; repeat (destruct Hin as [Hin|Hin]; [discriminate Hin|]);
          destruct Hin. }
      destruct (Hbody Hin1) as (Ho & l & ->). injection Ho as ->.
      split; [reflexivity|]. exists l. rewrite <- app_assoc. reflexivity.
    + assert (Hin1 : In (StageThrew EnsureCluster e) l1
                     \/ In (StageThrew ApplyManifests e) l1).
      { destruct Hin as [Hin|Hin]; apply in_app_or in Hin;
          destruct Hin as [Hin|Hin]; auto;
          simpl in Hin; repeat (destruct Hin as [Hin|Hin]; [discriminate Hin|]);
          destruct Hin. }
      destruct (Hbody Hin1) as (Ho & l & ->). injection Ho as ->.
      split; [reflexivity|]. exists l. rewrite <- app_assoc. reflexivity.
Qed.

End LateFailureDeploy.

Lemma console_errors_app (l1 l2 : list Event) :
  console_errors (l1 ++ l2) = (console_errors l1 ++ console_errors l2)%list.
Proof.
  induction l1 as [|ev l1 IH]; [reflexivity|].
  destruct ev; simpl; rewrite IH; reflexivity.
Qed.

Lemma console_errors_tidy (l : list Event) :
  Forall no_error_output l -> console_errors l = [].
Proof.
  induction 1 as [|ev l Hev _ IH]; [reflexivity|].
  destruct ev; simpl in *; try exact IH. destruct Hev.
Qed.

Section LateFailureCount.

Variable C : Collaborators.
Variables project location cluster : string.

Lemma counted_bind_quiet {A B : Type} (m : M (Remote C) A)
    (k : A -> M (Remote C) B) (s : Remote C) :
  emits no_late_failure m -> tidy m ->
  (forall a s1, late_failure_counted C project location cluster (k a s1)) ->
  late_failure_counted C project location cluster (bind m k s).
Proof.
  intros Hm Ht Hk e. specialize (Hm s). specialize (Ht s).
  unfold bind, outcome, events in *.
  destruct (m s) as [[[a|e0] s1] l1]; cbn [fst snd] in *.
  - specialize (Hk a s1 e). unfold events in Hk.
    destruct (k a s1) as [[o s2] l2]. cbn [fst snd] in *.
    rewrite console_errors_app, (console_errors_tidy l1 (Ht a eq_refl)).
    cbn [app]. destruct Hk as [Happly Hcluster].
    split; intros Hin; [apply Happly | apply Hcluster];
      apply in_app_or in Hin; destruct Hin as [Hin|Hin]; auto;
      destruct (no_late_failure_In l1 e Hm); auto.
  - split; intros Hin; destruct (no_late_failure_In l1 e Hm); auto.
Qed.

Lemma counted_bind_ret {A : Type} (m : M (Remote C) A) (s : Remote C) :
  late_failure_counted C project location cluster (m s) ->
  late_failure_counted C project location cluster (bind m (fun a => ret a) s).
Proof.
  intros Hm e. specialize (Hm e). unfold bind, ret, events in *.
  destruct (m s) as [[[a|e0] s1] l1]; cbn [fst snd] in *; [|exact Hm].
  rewrite app_nil_r. exact Hm.
Qed.

End LateFailureCount.

Lemma StageThrew_inj (s : Stage) (e1 e2 : Error) :
  StageThrew s e1 = StageThrew s e2 -> e1 = e2.
Proof. intros H. injection H as H. exact H. Qed.

Section LateFailureCountDeploy.

Variable C : Collaborators.

Ltac marker_cases H tac :=
  match type of H with
  | _ \/ _ =>
      destruct H as [H|H];
      [ first [ discriminate H | apply StageThrew_inj in H; subst; tac ]
      | marker_cases H tac ]
  | False => destruct H
  end.

Lemma deployToGke_counted projectId location clusterId deploymentName imgUrl cb
    (r : Remote C) :
  late_failure_counted C projectId location clusterId
    (deployToGke C projectId location clusterId deploymentName imgUrl cb r).
Proof.
  intros e. unfold cluster_failure_reports, missing_cluster_error.
  cbv beta zeta delta [deployToGke checkGkeClusterExists try_catch bind stage
                         exec call outcome final events].
  destruct (client_getCluster C
              (locationPath C projectId location ++ "/clusters/" ++ clusterId) r)
    as [[found|e0] r1] eqn:Hread; cbn [fst snd].
  - destruct cb as [c|]; cbn -[append];
      repeat match goal with
             | |- context [execPromise C ?c ?s] =>
                 destruct (execPromise C c s) as [[?|?] ?]; cbn -[append]
             end;
      split; intros H; marker_cases H ltac:(reflexivity).
  - destruct (code_is 5 e0) eqn:Hcode.
    + destruct cb as [c|]; cbn -[append]; split; intros H;
        marker_cases H ltac:(left; split; reflexivity).
    + destruct cb as [c|]; cbn -[append]; split; intros H;
        marker_cases H
          ltac:(right; split;
                [ do 2 eexists; exact Hread
                | split; [exact Hcode | reflexivity] ]).
Qed.

Lemma deploy_counted (args : DeployArgs) (r : Remote C) (e : Error) :
  let events := events (deploy C args r) in
  (In (StageThrew ApplyManifests e) events ->
   console_errors events
   = (report_lines "Error deploying to GKE" e
        ++ report_lines "Deployment failed" e)%list)
  /\ (In (StageThrew EnsureCluster e) events ->
      cluster_failure_reports C (projectId args)
        (or_default "europe-west1" (region args))
        (or_default "default-cluster" (clusterId args)) e
        (report_lines "Error deploying to GKE" e
           ++ report_lines "Deployment failed" e)%list
        (console_errors events)).
Proof.
  intros evs. subst evs.
  assert (Hthrown : In (StageThrew EnsureCluster e) (events (deploy C args r))
                    \/ In (StageThrew ApplyManifests e) (events (deploy C args r)) ->
                    outcome (deploy C args r) = Thrown e).
  { intros Hin. exact (proj1 (deploy_body_late C args r e Hin)). }
  revert Hthrown. unfold deploy.
  match goal with
  | |- context [try_catch ?m ?h] => set (body := m)
  end.
  assert (Hbody : late_failure_counted C (projectId args)
                    (or_default "europe-west1" (region args))
                    (or_default "default-cluster" (clusterId args)) (body r)).
  { subst body. apply counted_bind_quiet.
    { apply emits_stage; [exact I | intros; exact I |].
      apply ensureApisEnabled_output;
        [apply output_ok_no_late_failure | intros; split; exact I | exact I]. }
    { apply tidy_stage, ensureApisEnabled_tidy. }
    intros _ r1.
    do 4 (apply counted_bind_quiet;
          [ apply call_binding_output; [exact I | intros; exact I]
          | apply call_binding_tidy
          | intros ? ? ]).
    apply counted_bind_quiet;
      [apply emits_eval | apply tidy_emits, emits_eval | intros ? ?].
    apply counted_bind_quiet;
      [ apply call_binding_output; [exact I | intros; exact I]
      | apply call_binding_tidy
      | intros ? ? ].
    apply counted_bind_ret, deployToGke_counted. }
  specialize (Hbody e). unfold try_catch, outcome, events in *.
  destruct (body r) as [[[v|e0] r1] l1]; cbn [fst snd] in *.
  - intros Hthrown. split; intros Hin.
    + discriminate (Hthrown (or_intror Hin)).
    + discriminate (Hthrown (or_introl Hin)).
  - unfold bind, console_error, emit, throw, logAndProgress, console_log.
    destruct Hbody as [Happly Hcluster].
    simpl. destruct (progressCallback args) as [c|]; simpl; intros Hthrown;
      match goal with
      | |- context [console_errors (l1 ++ ?t)] =>
          assert (Hin1 : forall st, In (StageThrew st e) (l1 ++ t) ->
                                    In (StageThrew st e) l1)
            by (intros st Hin; apply in_app_or in Hin;
                destruct Hin as [Hin|Hin]; [exact Hin|]; simpl in Hin;
                repeat (destruct Hin as [Hin|Hin]; [discriminate Hin|]);
                destruct Hin)
      end;
      rewrite console_errors_app; split; intros Hin.
    + injection (Hthrown (or_intror Hin)) as ->. apply Hin1 in Hin.
      rewrite (Happly Hin). reflexivity.
    + injection (Hthrown (or_introl Hin)) as ->. apply Hin1 in Hin.
      destruct (Hcluster Hin) as [(Hguard & ->) | (Hread & Hcode & ->)].
      * left. split; [exact Hguard | reflexivity].
      * right. split; [exact Hread | split; [exact Hcode|]].
        rewrite <- app_assoc. reflexivity.
    + injection (Hthrown (or_intror Hin)) as ->. apply Hin1 in Hin.
      rewrite (Happly Hin). reflexivity.
    + injection (Hthrown (or_introl Hin)) as ->. apply Hin1 in Hin.
      destruct (Hcluster Hin) as [(Hguard & ->) | (Hread & Hcode & ->)].
      * left. split; [exact Hguard | reflexivity].
      * right. split; [exact Hread | split; [exact Hcode|]].
        rewrite <- app_assoc. reflexivity.
Qed.

End LateFailureCountDeploy.

(** X14. A failure of the cluster check or of the apply stage is reported
    by every [catch] block it passes, so at least twice. When one of these
    stages throws [e], the deployment throws [e] and its log ends with the
    report of [deployToGke] ("Error deploying to GKE: ...") followed by the
    report of [deploy] ("Deployment failed: ..."), each with its two lines
    on the error console and, when there is a callback, its notification
    of level ['error']. For a failure of the apply stage, and for the error
    of the guard on a missing cluster, these four lines are all the run
    prints with [console.error]: the failure is reported twice. When it is
    the read of the cluster that threw (an error whose code is not 5),
    [checkGkeClusterExists] has printed its own two lines before them: the
    failure is reported three times. *)
Theorem late_failure_reports
    (C : Collaborators) (args : DeployArgs) (r : Remote C) (e : Error) :
  let run := deploy C args r in
  In (StageThrew EnsureCluster e) (events run)
  \/ In (StageThrew ApplyManifests e) (events run) ->
  outcome run = Thrown e
  /\ (exists l,
        events run
        = (l ++ gke_report (progressCallback args) e
             ++ failure_report (progressCallback args) e)%list)
  /\ (In (StageThrew ApplyManifests e) (events run) ->
      console_errors (events run)
      = (report_lines "Error deploying to GKE" e
           ++ report_lines "Deployment failed" e)%list)
  /\ (In (StageThrew EnsureCluster e) (events run) ->
      cluster_failure_reports C (projectId args)
        (or_default "europe-west1" (region args))
        (or_default "default-cluster" (clusterId args)) e
        (report_lines "Error deploying to GKE" e
           ++ report_lines "Deployment failed" e)%list
        (console_errors (events run))).
Proof.
  intros run Hin. subst run.
  destruct (deploy_body_late C args r e Hin) as (Ho & Hl).
  split; [exact Ho|]. split; [exact Hl|]. apply deploy_counted.
Qed.

Lemma late_failure_reports_witness :
  console_errors
    (events (deploy (fake read_denied) (request [FilePath "/app/Dockerfile"]) []))
  = (report_lines "Error checking GKE cluster default-cluster" denied
       ++ report_lines "Error deploying to GKE" denied
       ++ report_lines "Deployment failed" denied)%list.
Proof.
  assert (Hin : In (StageThrew EnsureCluster denied)
                  (events (deploy (fake read_denied)
                             (request [FilePath "/app/Dockerfile"]) []))).
  { vm_compute. repeat (first [left; reflexivity | right]). }
  pose proof (late_failure_reports (fake read_denied)
                (request [FilePath "/app/Dockerfile"]) [] denied
                (or_introl Hin)) as (_ & _ & _ & Hcluster).
  destruct (Hcluster Hin) as [(Hguard & _) | (_ & _ & Hprinted)].
  - discriminate Hguard.
  - exact Hprinted.
Defined.

Example missing_cluster_is_reported_twice :
  console_errors
    (events (deploy (fake no_cluster) (request [FilePath "/app/Dockerfile"]) []))
  = (report_lines "Error deploying to GKE" (missing_cluster_error "default-cluster")
       ++ report_lines "Deployment failed" (missing_cluster_error "default-cluster"))%list.
Proof. vm_compute. reflexivity. Qed.
